(** * Schit: stores cryptographic hashes in tables

    A shallow embedding of [schit.py] (class [FileMonitor]) and the
    properties of its change-detection state machine.

    - the configuration is four sets of path strings ([gset string]);
    - the file system is what the program observes of it: the directory
      tree that [os.walk] sees below a root, and the bytes that [open]
      returns for a path (or the exception it raises);
    - the SQLite table [file_data] has no key and no constraint, so it is
      a list of rows in insertion order, and every SQL statement of the
      program is a function on that list. *)

From Stdlib Require Import ZArith List Ascii String Strings.Byte Lia.
From stdpp Require Import base option list sets gmap strings pretty.

Set Default Proof Using "Type".

(** ** hashlib.sha1

    The digest of the standard library, after FIPS 180-4.  Words are
    32-bit integers carried in [Z] with the wrap-around written out. *)

Module Hashlib.
Local Open Scope Z_scope.

Definition mask32 (x : Z) : Z := Z.land x 4294967295.

Definition rotl (n x : Z) : Z :=
  mask32 (Z.lor (Z.shiftl x n) (Z.shiftr x (32 - n))).

Definition add32 (x y : Z) : Z := mask32 (x + y).

Definition not32 (x : Z) : Z := Z.lxor (mask32 x) 4294967295.

(** Big-endian reading and writing of integers. *)
Definition be_word (bs : list Z) : Z :=
  fold_left (fun acc b => acc * 256 + b) bs 0.

Definition be_bytes (n : nat) (x : Z) : list Z :=
  map (fun i => Z.land (Z.shiftr x (8 * Z.of_nat i)) 255) (rev (seq 0 n)).

Definition byte_val (b : byte) : Z := Z.of_N (Byte.to_N b).

(** Message padding: one [0x80] byte, zeros up to 56 modulo 64, and the
    length in bits on eight bytes. *)
Definition pad (msg : list byte) : list Z :=
  let len := length msg in
  let zeros := ((64 - (len + 9) mod 64) mod 64)%nat in
  map byte_val msg ++ [128] ++ repeat 0 zeros
    ++ be_bytes 8 (8 * Z.of_nat len).

Fixpoint chunks {A} (fuel n : nat) (l : list A) : list (list A) :=
  match fuel with
  | O => []
  | S fuel' =>
      match l with
      | [] => []
      | _ => take n l :: chunks fuel' n (drop n l)
      end
  end.

Definition words_of_block (block : list Z) : list Z :=
  map be_word (chunks 16 4 block).

(** The message schedule, kept newest first while it is extended. *)
Definition schedule_step (rw : list Z) : list Z :=
  rotl 1 (Z.lxor (Z.lxor (nth 2 rw 0) (nth 7 rw 0))
                 (Z.lxor (nth 13 rw 0) (nth 15 rw 0))) :: rw.

Definition schedule (w16 : list Z) : list Z :=
  rev (Nat.iter 64 schedule_step (rev w16)).

Definition round_f (t : nat) (b c d : Z) : Z :=
  if (t <? 20)%nat then Z.lor (Z.land b c) (Z.land (not32 b) d)
  else if (t <? 40)%nat then Z.lxor (Z.lxor b c) d
  else if (t <? 60)%nat then
    Z.lor (Z.lor (Z.land b c) (Z.land b d)) (Z.land c d)
  else Z.lxor (Z.lxor b c) d.

Definition round_k (t : nat) : Z :=
  if (t <? 20)%nat then 1518500249
  else if (t <? 40)%nat then 1859775393
  else if (t <? 60)%nat then 2400959708
  else 3395469782.

Definition regs : Type := Z * Z * Z * Z * Z.

Definition round (st : regs) (tw : nat * Z) : regs :=
  let '(a, b, c, d, e) := st in
  let '(t, w) := tw in
  let temp :=
    add32 (add32 (add32 (add32 (rotl 5 a) (round_f t b c d)) e) (round_k t)) w in
  (temp, a, rotl 30 b, c, d).

Definition compress (h : regs) (block : list Z) : regs :=
  let ws := schedule (words_of_block block) in
  let '(a, b, c, d, e) := fold_left round (combine (seq 0 80) ws) h in
  let '(h0, h1, h2, h3, h4) := h in
  (add32 h0 a, add32 h1 b, add32 h2 c, add32 h3 d, add32 h4 e).

Definition init_regs : regs :=
  (1732584193, 4023233417, 2562383102, 271733878, 3285377520).

Definition sha1_words (msg : list byte) : list Z :=
  let p := pad msg in
  let '(h0, h1, h2, h3, h4) :=
    fold_left compress (chunks (length p) 64 p) init_regs in
  [h0; h1; h2; h3; h4].

(** Lower-case hexadecimal rendering, eight digits per word. *)
Definition hex_digit (n : Z) : ascii :=
  nth (Z.to_nat (Z.land n 15)) (list_ascii_of_string "0123456789abcdef") "0"%char.

Definition hex_word (w : Z) : list ascii :=
  map (fun i => hex_digit (Z.shiftr w (4 * Z.of_nat i))) (rev (seq 0 8)).

(** The hash object: [update] feeds bytes, [hexdigest] renders the digest
    of everything fed so far. *)
Record sha1 : Type := { fed : list byte }.

Definition new : sha1 := {| fed := [] |}.

Definition update (h : sha1) (chunk : list byte) : sha1 :=
  {| fed := fed h ++ chunk |}.

Definition hexdigest (h : sha1) : string :=
  string_of_list_ascii (concat (map hex_word (sha1_words (fed h)))).

End Hashlib.

(** ** os.path.join and os.walk (POSIX) *)

Definition starts_with_sep (s : string) : bool :=
  match s with
  | String c _ => Ascii.eqb c "/"
  | EmptyString => false
  end.

Fixpoint ends_with_sep (s : string) : bool :=
  match s with
  | EmptyString => false
  | String c EmptyString => Ascii.eqb c "/"
  | String _ s' => ends_with_sep s'
  end.

(** [os.path.join(a, b)]: an absolute [b] replaces [a]; otherwise the two
    are glued with exactly one separator. *)
Definition os_path_join (a b : string) : string :=
  if starts_with_sep b then b
  else if String.eqb a "" || ends_with_sep a then a +:+ b
  else a +:+ "/" +:+ b.

(** What [os.walk] can see below a root: for every directory its
    sub-directories (name and contents, in listing order) and the names of
    its other entries. *)
Local Unset Elimination Schemes.
Inductive dir_tree : Type :=
  | Dir (subdirs : list (string * dir_tree)) (files : list string).
Local Set Elimination Schemes.

Section walk.
(** The generator yields [(dirpath, dirs, files)] and, when resumed,
    descends into the names that are still in the list [dirs], which the
    consumer may have edited in place in the meantime.  [edit] is that
    edit.  Entries of one directory have distinct names and the edit
    keeps their order, so visiting the entries whose name is still
    listed is visiting the listed names. *)
Variable edit : string -> list string -> list string.

Fixpoint os_walk (top : string) (t : dir_tree)
  : list (string * list string * list string) :=
  match t with
  | Dir subdirs files =>
      let dirs := edit top (map fst subdirs) in
      (top, dirs, files) ::
      (fix descend (entries : list (string * dir_tree)) :=
         match entries with
         | [] => []
         | (name, sub) :: entries' =>
             (if bool_decide (name ∈ dirs)
              then os_walk (os_path_join top name) sub
              else [])
             ++ descend entries'
         end) subdirs
  end.
End walk.

(** ** The monitor's configuration and the file system it runs on *)

Record config : Type := {
  database_location : string;
  include_dirs : gset string;
  include_files : gset string;
  exclude_dirs : gset string;
  exclude_files : gset string
}.

(** The exceptions that the handlers of the program tell apart: [IOError],
    and any other one, such as the [MemoryError] of reading a line that
    does not fit in memory. *)
Inductive exn : Type := IOError | MemoryError.

Inductive result (A : Type) : Type :=
  | Return (a : A)
  | Raise (e : exn).
Arguments Return {A} a.
Arguments Raise {A} e.

(** [fs_dirs]: the tree found at a path given to [os.walk] (absent when
    the path is no directory: the walk then yields nothing).
    [fs_files]: what opening and reading a path gives, its bytes or an
    exception (absent when there is no such file). *)
Record filesystem : Type := {
  fs_dirs : gmap string dir_tree;
  fs_files : gmap string (result (list byte))
}.

(** Iterating over a Python set: some order without repetition. *)
Definition iter_set (s : gset string) : list string := elements s.

(** ** FileMonitor.get_config_files *)

(** [list.remove(x)]: drops the first item equal to [x]. *)
Fixpoint list_remove (x : string) (l : list string) : list string :=
  match l with
  | [] => []
  | y :: l' => if decide (x = y) then l' else y :: list_remove x l'
  end.

(** [for dir_name in dirs: if join(dirpath, dir_name) in exclude_dirs:
    dirs.remove(dir_name)].  The list iterator holds an index into the
    list it walks; it reads [dirs[i]] from the list as it is at that
    moment and stops when [i] reaches the current length. *)
Fixpoint remove_excluded_loop (cfg : config) (dirpath : string)
    (steps i : nat) (dirs : list string) : list string :=
  match steps with
  | O => dirs
  | S steps' =>
      match dirs !! i with
      | None => dirs
      | Some dir_name =>
          if bool_decide (os_path_join dirpath dir_name ∈ exclude_dirs cfg)
          then remove_excluded_loop cfg dirpath steps' (S i)
                 (list_remove dir_name dirs)
          else remove_excluded_loop cfg dirpath steps' (S i) dirs
      end
  end.

Definition remove_excluded (cfg : config) (dirpath : string)
    (dirs : list string) : list string :=
  remove_excluded_loop cfg dirpath (length dirs) 0 dirs.

(** [for file_name in files: ... config_files.add(abs_file_path)] *)
Definition add_files (cfg : config) (config_files : gset string)
    (yielded : string * list string * list string) : gset string :=
  let '(dirpath, _, files) := yielded in
  fold_left
    (fun acc file_name =>
       let abs_file_path := os_path_join dirpath file_name in
       if bool_decide (abs_file_path ∈ exclude_files cfg) then acc
       else {[abs_file_path]} ∪ acc)
    files config_files.

Definition walk_from (cfg : config) (fs : filesystem) (include_dir : string)
  : list (string * list string * list string) :=
  match fs_dirs fs !! include_dir with
  | Some t => os_walk (remove_excluded cfg) include_dir t
  | None => []
  end.

Definition get_config_files (cfg : config) (fs : filesystem) : gset string :=
  fold_left
    (fun config_files include_dir =>
       fold_left (add_files cfg) (walk_from cfg fs include_dir) config_files)
    (iter_set (include_dirs cfg))
    (include_files cfg).

(** ** FileMonitor.hash_file *)

(** [open(file_location, 'rb', 4096)] followed by reading to the end. *)
Definition open_rb (fs : filesystem) (file_location : string)
  : result (list byte) :=
  match fs_files fs !! file_location with
  | Some outcome => outcome
  | None => Raise IOError
  end.

(** Iterating over a binary file yields its lines, terminator included. *)
Fixpoint readlines (content : list byte) : list (list byte) :=
  match content with
  | [] => []
  | b :: rest =>
      if Byte.eqb b x0a then [b] :: readlines rest
      else match readlines rest with
           | [] => [[b]]
           | l :: ls => (b :: l) :: ls
           end
  end.

Definition hash_file (fs : filesystem) (file_location : string)
  : result string :=
  match open_rb fs file_location with
  | Raise e => Raise e
  | Return file_to_hash =>
      let algorithm :=
        fold_left Hashlib.update (readlines file_to_hash) Hashlib.new in
      Return (Hashlib.hexdigest algorithm)
  end.

(** ** The table file_data

    [CREATE TABLE file_data(file_location TEXT, original_hash TEXT,
    new_hash TEXT, is_modified INTEGER)]: no key, no constraint. *)

Record row : Type := {
  file_location : string;
  original_hash : string;
  new_hash : string;
  is_modified : Z
}.

Abbreviation table := (list row).

Definition not_checked : string := "Not checked.".
Definition new_file : string := "New File.".
Definition file_deleted : string := "File deleted.".

(** [INSERT INTO file_data VALUES(?, ?, 'Not checked.', 0)] *)
Definition sql_insert_initial (entry : string * string) (db : table) : table :=
  db ++ [{| file_location := entry.1; original_hash := entry.2;
            new_hash := not_checked; is_modified := 0 |}].

(** [UPDATE file_data SET new_hash=?, is_modified=? WHERE file_location=?] *)
Definition sql_update_checked (entries : string * Z * string) (db : table)
  : table :=
  let '(tmp_hash, modified, file_loc) := entries in
  map (fun r =>
         if bool_decide (file_location r = file_loc)
         then {| file_location := file_location r;
                 original_hash := original_hash r;
                 new_hash := tmp_hash; is_modified := modified |}
         else r) db.

(** [INSERT INTO file_data VALUES (?, 'New File.', ?, 1)] *)
Definition sql_insert_new (entries : string * string) (db : table) : table :=
  db ++ [{| file_location := entries.1; original_hash := new_file;
            new_hash := entries.2; is_modified := 1 |}].

(** [DELETE FROM file_data WHERE new_hash="File deleted."] *)
Definition sql_delete_deleted (db : table) : table :=
  filter (fun r => new_hash r <> file_deleted) db.

(** [UPDATE file_data SET original_hash=?, new_hash='Not checked.',
    is_modified=0 WHERE file_location=?] *)
Definition sql_update_accepted (entries : string * string) (db : table)
  : table :=
  let '(accepted, file_loc) := entries in
  map (fun r =>
         if bool_decide (file_location r = file_loc)
         then {| file_location := file_location r;
                 original_hash := accepted;
                 new_hash := not_checked; is_modified := 0 |}
         else r) db.

(** [SELECT ... FROM file_data] and [... WHERE is_modified=1] *)
Definition get_database_files (db : table) : table := db.

Definition get_modified_files (db : table) : table :=
  filter (fun r => is_modified r = 1%Z) db.

(** ** The commands *)

(** [init_database]: the old table is dropped (its absence is tolerated),
    an empty one is created, and every resolved file that hashes is
    inserted; [except Exception: pass] swallows every failure. *)
Definition init_database (cfg : config) (fs : filesystem) (db : table)
  : table :=
  let db : table := [] in
  fold_left
    (fun db file_loc =>
       match hash_file fs file_loc with
       | Return hash => sql_insert_initial (file_loc, hash) db
       | Raise _ => db
       end)
    (iter_set (get_config_files cfg fs)) db.

(** [check_existing_files]: the rows are read once, then one [UPDATE] per
    row read is run against the table. *)
Definition check_existing_files (fs : filesystem) (db : table) : table :=
  let database_files := get_database_files db in
  fold_left
    (fun db r =>
       let file_loc := file_location r in
       let orig_hash := original_hash r in
       let '(tmp_hash, modified) :=
         match hash_file fs file_loc with
         | Return tmp_hash =>
             (tmp_hash, if bool_decide (tmp_hash <> orig_hash) then 1%Z else 0%Z)
         | Raise _ => (file_deleted, 1%Z)
         end in
       sql_update_checked (tmp_hash, modified, file_loc) db)
    database_files db.

(** [check_new_files]: only [IOError] is caught around the hashing; any
    other exception leaves the function before [commit]. *)
Definition check_new_files (cfg : config) (fs : filesystem) (db : table)
  : result table :=
  let config_files := get_config_files cfg fs in
  let database_entries := get_database_files db in
  let database_files : gset string :=
    list_to_set (map file_location database_entries) in
  fold_left
    (fun acc file_loc =>
       match acc with
       | Raise e => Raise e
       | Return db =>
           if bool_decide (file_loc ∈ database_files) then Return db
           else match hash_file fs file_loc with
                | Return tmp_hash => Return (sql_insert_new (file_loc, tmp_hash) db)
                | Raise IOError => Return db
                | Raise e => Raise e
                end
       end)
    (iter_set config_files) (Return db).

(** [update_database]: the rows are read once, the deleted ones are
    removed, then one [UPDATE] per row read promotes its [new_hash]. *)
Definition update_database (db : table) : table :=
  let database_files := get_database_files db in
  let db := sql_delete_deleted db in
  fold_left
    (fun db r => sql_update_accepted (new_hash r, file_location r) db)
    database_files db.

(** The stored table after a function that may leave by an exception:
    what was not committed is rolled back when the connection goes. *)
Definition committed (before : table) (outcome : result table) : table :=
  match outcome with
  | Return after => after
  | Raise _ => before
  end.

(** The [diff] command of [main]. *)
Definition diff (cfg : config) (fs : filesystem) (db : table) : table :=
  let db := check_existing_files fs db in
  committed db (check_new_files cfg fs db).

Inductive command : Type := Init | Show | Diff | Update.

Definition run (c : command) (cfg : config) (fs : filesystem) (db : table)
  : table :=
  match c with
  | Init => init_database cfg fs db
  | Show => db
  | Diff => diff cfg fs db
  | Update => update_database db
  end.

(** ** Notions used to state the properties *)

Definition paths (db : table) : list string := map file_location db.

(** No two rows share a [file_location]. *)
Definition unique_paths (db : table) : Prop := NoDup (paths db).

(** The digest of a whole content, fed in one piece. *)
Definition sha1_hex (content : list byte) : string :=
  Hashlib.hexdigest (Hashlib.update Hashlib.new content).

Definition is_hex_digit (c : ascii) : Prop :=
  c ∈ list_ascii_of_string "0123456789abcdef".

(** [reaches top t chain p]: [p] is the path of a file of the tree [t]
    walked from [top], and [chain] lists the paths of the directories
    entered below [top] on the way to it. *)
Inductive reaches : string -> dir_tree -> list string -> string -> Prop :=
  | reaches_here top subdirs files f :
      f ∈ files ->
      reaches top (Dir subdirs files) [] (os_path_join top f)
  | reaches_below top subdirs files name sub chain p :
      (name, sub) ∈ subdirs ->
      reaches (os_path_join top name) sub chain p ->
      reaches top (Dir subdirs files) (os_path_join top name :: chain) p.

(** Two neighbours of one listing are both excluded. *)
Fixpoint excluded_neighbours (cfg : config) (dirpath : string)
    (dirs : list string) : bool :=
  match dirs with
  | [] => false
  | d :: rest =>
      match rest with
      | [] => false
      | d' :: _ =>
          (bool_decide (os_path_join dirpath d ∈ exclude_dirs cfg)
           && bool_decide (os_path_join dirpath d' ∈ exclude_dirs cfg))
          || excluded_neighbours cfg dirpath rest
      end
  end.

(** Every listing of the tree has distinct names and no two excluded
    neighbours. *)
Fixpoint plain_listings (cfg : config) (top : string) (t : dir_tree) : bool :=
  match t with
  | Dir subdirs files =>
      bool_decide (NoDup (map fst subdirs))
      && negb (excluded_neighbours cfg top (map fst subdirs))
      && (fix all (entries : list (string * dir_tree)) : bool :=
            match entries with
            | [] => true
            | (name, sub) :: entries' =>
                plain_listings cfg (os_path_join top name) sub && all entries'
            end) subdirs
  end.

(** [p] is below the directory [d]: [d] joined with one name after the
    other gives [p]. *)
Definition lies_under (d p : string) : Prop :=
  exists names, names <> [] /\ p = fold_left os_path_join names d.

(** The exclusion rule as the specification words it. *)
Definition exclusion_respected (cfg : config) (fs : filesystem) : Prop :=
  forall p,
    p ∈ exclude_files cfg
    \/ (exists d, d ∈ exclude_dirs cfg /\ lies_under d p) ->
    p ∉ get_config_files cfg fs.

(** The destruction rule as the specification words it: a row whose path
    is gone after a command was removed by [update], as a deleted file. *)
Definition destroyed_only_by_update : Prop :=
  forall c cfg fs (db : table) r,
    r ∈ db ->
    file_location r ∉ paths (run c cfg fs db) ->
    c = Update /\ new_hash r = file_deleted.

(** The value that the last [UPDATE ... WHERE file_location=p] of a run of
    such statements, one per row read, writes. *)
Fixpoint last_written {V : Type} (val : row -> V) (read : table) (p : string)
  : option V :=
  match read with
  | [] => None
  | r :: read' =>
      match last_written val read' p with
      | Some v => Some v
      | None => if bool_decide (p = file_location r) then Some (val r) else None
      end
  end.

(** What [check_existing_files] finds for one row read. *)
Definition recheck (fs : filesystem) (r : row) : string * Z :=
  match hash_file fs (file_location r) with
  | Return tmp_hash =>
      (tmp_hash, if bool_decide (tmp_hash <> original_hash r) then 1%Z else 0%Z)
  | Raise _ => (file_deleted, 1%Z)
  end.

Definition set_checked (v : string * Z) (r : row) : row :=
  {| file_location := file_location r; original_hash := original_hash r;
     new_hash := v.1; is_modified := v.2 |}.

Definition set_accepted (accepted : string) (r : row) : row :=
  {| file_location := file_location r; original_hash := accepted;
     new_hash := not_checked; is_modified := 0 |}.

(** The row that [check_new_files] inserts for a path, if any. *)
Definition discovered (fs : filesystem) (database_files : gset string)
    (file_loc : string) : option row :=
  if bool_decide (file_loc ∈ database_files) then None
  else match hash_file fs file_loc with
       | Return tmp_hash =>
           Some {| file_location := file_loc; original_hash := new_file;
                   new_hash := tmp_hash; is_modified := 1 |}
       | Raise _ => None
       end.

(** Induction on directory trees, with the sub-trees of a node. *)
Fixpoint dir_tree_ind (P : dir_tree -> Prop)
    (step : forall subdirs files,
        Forall (fun entry => P entry.2) subdirs -> P (Dir subdirs files))
    (t : dir_tree) : P t :=
  match t with
  | Dir subdirs files =>
      step subdirs files
        ((fix all (l : list (string * dir_tree))
            : Forall (fun entry => P entry.2) l :=
            match l with
            | [] => Lists.List.Forall_nil _
            | (name, sub) :: l' =>
                @Lists.List.Forall_cons _ (fun entry => P entry.2) (name, sub) l'
                  (dir_tree_ind P step sub) (all l')
            end) subdirs)
  end.

(** The row that [init_database] inserts for a path, if any. *)
Definition initial (fs : filesystem) (file_loc : string) : option row :=
  match hash_file fs file_loc with
  | Return hash =>
      Some {| file_location := file_loc; original_hash := hash;
              new_hash := not_checked; is_modified := 0 |}
  | Raise _ => None
  end.

(** A path whose hashing leaves [check_new_files] by an exception that its
    handler does not catch. *)
Definition escapes (fs : filesystem) (database_files : gset string)
    (file_loc : string) : bool :=
  negb (bool_decide (file_loc ∈ database_files))
  && match hash_file fs file_loc with
     | Raise MemoryError => true
     | _ => false
     end.

(** What the removal loop leaves of a listing with distinct names: the
    item after a removed one moves into its place and is never read. *)
Fixpoint after_removal (cfg : config) (dirpath : string)
    (dirs : list string) : list string :=
  match dirs with
  | [] => []
  | d :: rest =>
      if bool_decide (os_path_join dirpath d ∈ exclude_dirs cfg)
      then match rest with
           | [] => []
           | d' :: rest' => d' :: after_removal cfg dirpath rest'
           end
      else d :: after_removal cfg dirpath rest
  end.

(** ** Concrete configurations, file systems and tables *)

Module Examples.

(** A file that is both listed and excluded. *)
Definition listed_and_excluded : config := {|
  database_location := "schit.db";
  include_dirs := ∅;
  include_files := {["/etc/passwd"]};
  exclude_dirs := ∅;
  exclude_files := {["/etc/passwd"]}
|}.

Definition nothing_monitored : config := {|
  database_location := "schit.db";
  include_dirs := ∅;
  include_files := ∅;
  exclude_dirs := ∅;
  exclude_files := ∅
|}.

Definition empty_disk : filesystem := {| fs_dirs := ∅; fs_files := ∅ |}.

(** [/data] holds [a.txt], [b.txt] and the directories [cache] and [tmp]. *)
Definition data_disk : filesystem := {|
  fs_dirs :=
    {[ "/data" :=
         Dir [("cache", Dir [] ["c.bin"]); ("tmp", Dir [] ["t.bin"])]
             ["a.txt"; "b.txt"] ]};
  fs_files :=
    {[ "/data/a.txt" := Return [x61; x62; x63];
       "/data/b.txt" := Return [x68; x69; x0a];
       "/data/tmp/t.bin" := Return [x00; xff] ]}
|}.

(** The same, but reading [/data/tmp/t.bin] exhausts the memory. *)
Definition huge_disk : filesystem := {|
  fs_dirs := fs_dirs data_disk;
  fs_files := <["/data/tmp/t.bin" := Raise MemoryError]> (fs_files data_disk)
|}.

Definition monitor_data : config := {|
  database_location := "schit.db";
  include_dirs := {["/data"]};
  include_files := {["/etc/hosts"]};
  exclude_dirs := {["/data/cache"]};
  exclude_files := {["/data/b.txt"; "/etc/hosts"]}
|}.

(** Both sub-directories of [/data] are excluded. *)
Definition monitor_data_only : config := {|
  database_location := "schit.db";
  include_dirs := {["/data"]};
  include_files := ∅;
  exclude_dirs := {["/data/cache"; "/data/tmp"]};
  exclude_files := ∅
|}.

(** A table in which two rows share a path, as no command leaves it. *)
Definition shared_path : table := [
  {| file_location := "/data/a.txt";
     original_hash := "a9993e364706816aba3e25717850c26c9cd0d89d";
     new_hash := not_checked; is_modified := 0 |};
  {| file_location := "/data/a.txt";
     original_hash := "da39a3ee5e6b4b0d3255bfef95601890afd80709";
     new_hash := not_checked; is_modified := 0 |}
].

Definition baseline : table := [
  {| file_location := "/data/a.txt";
     original_hash := "a9993e364706816aba3e25717850c26c9cd0d89d";
     new_hash := not_checked; is_modified := 0 |};
  {| file_location := "/data/old.txt";
     original_hash := "da39a3ee5e6b4b0d3255bfef95601890afd80709";
     new_hash := not_checked; is_modified := 0 |}
].

End Examples.

(** What a [diff] records as [new_hash] for a path: the hash of the file,
    or the sentinel when hashing raises. *)
Definition seen (fs : filesystem) (file_loc : string) : string :=
  match hash_file fs file_loc with
  | Return tmp_hash => tmp_hash
  | Raise _ => file_deleted
  end.

(** The baseline of a row is the hash of its file as it is on disk. *)
Definition matches_disk (fs : filesystem) (r : row) : Prop :=
  hash_file fs (file_location r) = Return (original_hash r).

(** ** main

    The database file holds the table or, before the first [init], no
    table: every statement on [file_data] then raises
    [sqlite3.OperationalError], which only the [DROP TABLE] of
    [init_database] catches.  [print] is modelled by the list of the
    strings printed, [exit] by the status, and the constructor of
    [FileMonitor], which reads the configuration file, by a function that
    gives the configuration or the message of the exception. *)

Inductive store : Type := NoTable | Table (db : table).

Inductive uncaught : Type := OperationalError | Propagated (e : exn).

Inductive ending : Type :=
  | Exit (status : Z)
  | Traceback (e : uncaught)
  | Returned.

Record outcome : Type := {
  printed : list string;
  ended : ending;
  stored : store
}.

Definition nl : string := String "010" EmptyString.

Definition usage : list string := [
  nl +:+ "Schit - Stores Cryptographic Hashes In Tables";
  nl +:+ "python schit.py [config_file] [init|show|diff|update]";
  "  init - Creates a new database and deletes the old one.";
  "  show - Display a listing of the files and their hashes.";
  "  diff - Check for differences and display them.";
  "  update - Update the database with modified hashes.";
  "    (diff must be run before updating)" +:+ nl
].

(** The three [print] calls per entry of the [show] and [diff] listings. *)
Definition print_entries (entries : table) : list string :=
  flat_map
    (fun r =>
       [file_location r;
        "Original Hash:    " +:+ original_hash r;
        "New Hash:         " +:+ new_hash r +:+ nl])
    entries.

Definition main (FileMonitor : string -> string + config)
    (argv : list string) (fs : filesystem) (st : store) : outcome :=
  match argv with
  | _ :: config_file :: command :: _ =>
      match FileMonitor config_file with
      | inl exc =>
          {| printed := ["Invalid config file."; exc];
             ended := Exit 1; stored := st |}
      | inr cfg =>
          if String.eqb command "init" then
            let db := match st with Table db => db | NoTable => [] end in
            {| printed := [nl +:+ "Initializing database with hashes.";
                           "Database initialized."];
               ended := Exit 0;
               stored := Table (init_database cfg fs db) |}
          else if String.eqb command "show" then
            match st with
            | NoTable =>
                {| printed := []; ended := Traceback OperationalError;
                   stored := NoTable |}
            | Table db =>
                let db_entries := get_database_files db in
                {| printed :=
                     print_entries db_entries
                     ++ ["Number of files monitored: "
                         +:+ pretty (length db_entries)];
                   ended := Exit 0; stored := Table db |}
            end
          else if String.eqb command "diff" then
            let header := nl +:+ "Checking for differences." +:+ nl in
            match st with
            | NoTable =>
                {| printed := [header]; ended := Traceback OperationalError;
                   stored := NoTable |}
            | Table db =>
                let db := check_existing_files fs db in
                match check_new_files cfg fs db with
                | Raise e =>
                    {| printed := [header];
                       ended := Traceback (Propagated e);
                       stored := Table db |}
                | Return db =>
                    let modified_entries := get_modified_files db in
                    {| printed :=
                         header :: print_entries modified_entries
                         ++ ["Number of modified files: "
                             +:+ pretty (length modified_entries)];
                       ended := Exit 0; stored := Table db |}
                end
            end
          else if String.eqb command "update" then
            let header := nl +:+ "Updating database entries." in
            match st with
            | NoTable =>
                {| printed := [header]; ended := Traceback OperationalError;
                   stored := NoTable |}
            | Table db =>
                {| printed := [header; "Database updated."];
                   ended := Exit 0;
                   stored := Table (update_database db) |}
            end
          else {| printed := []; ended := Returned; stored := st |}
      end
  | _ => {| printed := usage; ended := Exit 0; stored := st |}
  end.

(** The constructor of a monitor whose configuration file is well formed. *)
Definition always (cfg : config) (config_file : string) : string + config :=
  inr cfg.

(** ** Hashing *)

(** The digest agrees with the published test vectors, across the
    padding boundaries. *)
Example sha1_empty :
  sha1_hex [] = "da39a3ee5e6b4b0d3255bfef95601890afd80709".
Proof. vm_compute. reflexivity. Qed.

Example sha1_abc :
  sha1_hex [x61; x62; x63] = "a9993e364706816aba3e25717850c26c9cd0d89d".
Proof. vm_compute. reflexivity. Qed.

Example sha1_one_block_less_nine :
  sha1_hex (repeat x61 55) = "c1c8bbdc22796e28c0e15163d20899b65621d65a".
Proof. vm_compute. reflexivity. Qed.

Example sha1_two_blocks :
  sha1_hex (repeat x61 56) = "c2db330f6083854c99d4b5bfb6e8f29f201be699"
  /\ sha1_hex (repeat x61 64) = "0098ba824b5c16427bd7a1122a5a442a25ec644d"
  /\ sha1_hex (repeat x61 119) = "ee971065aaa017e0632a8ca6c77bb3bf8b1dfc56".
Proof. vm_compute. done. Qed.

Example readlines_keeps_terminators :
  readlines [x61; x0a; x0a; x62] = [[x61; x0a]; [x0a]; [x62]].
Proof. reflexivity. Qed.

Example os_path_join_cases :
  os_path_join "/r" "a" = "/r/a"
  /\ os_path_join "/r/" "a" = "/r/a"
  /\ os_path_join "" "a" = "a"
  /\ os_path_join "/r" "/a" = "/a".
Proof. done. Qed.

Lemma readlines_concat (content : list byte) :
  concat (readlines content) = content.
Proof.
  induction content as [|b rest IH]; [reflexivity|].
  simpl. destruct (Byte.eqb b x0a).
  - simpl. by rewrite IH.
  - destruct (readlines rest) as [|l ls]; simpl in *.
    + by rewrite <- IH.
    + by rewrite <- IH.
Qed.

Lemma update_fold (chunks : list (list byte)) (h : Hashlib.sha1) :
  Hashlib.fed (fold_left Hashlib.update chunks h)
  = Hashlib.fed h ++ concat chunks.
Proof.
  revert h. induction chunks as [|c cs IH]; intros h; simpl.
  - by rewrite app_nil_r.
  - rewrite IH. simpl. by rewrite <- app_assoc.
Qed.

(** Reading line by line and feeding each line gives the digest of the
    whole content. *)
Lemma hash_file_Return (fs : filesystem) (file_location : string) (h : string) :
  hash_file fs file_location = Return h <->
  exists content,
    open_rb fs file_location = Return content /\ h = sha1_hex content.
Proof.
  unfold hash_file, sha1_hex, Hashlib.hexdigest.
  destruct (open_rb fs file_location) as [content|e].
  - rewrite update_fold, readlines_concat. simpl.
    split.
    + intros [= <-]. by exists content.
    + intros (c & [= <-] & ->). done.
  - split; [done|]. by intros (c & ? & _).
Qed.

Lemma string_of_list_ascii_length (l : list ascii) :
  String.length (string_of_list_ascii l) = length l.
Proof. induction l as [|c l IH]; simpl; congruence. Qed.

Lemma hex_digit_is_hex (n : Z) : is_hex_digit (Hashlib.hex_digit n).
Proof.
  unfold Hashlib.hex_digit, is_hex_digit.
  assert (Z.to_nat (Z.land n 15) < 16)%nat as Hlt.
  { change 15%Z with (Z.ones 4). rewrite Z.land_ones by lia.
    pose proof (Z.mod_pos_bound n (2 ^ 4) ltac:(lia)). lia. }
  apply list_elem_of_In, nth_In. exact Hlt.
Qed.

Lemma hex_word_length (w : Z) : length (Hashlib.hex_word w) = 8.
Proof. unfold Hashlib.hex_word. by rewrite length_map. Qed.

Lemma hex_word_digits (w : Z) : Forall is_hex_digit (Hashlib.hex_word w).
Proof.
  unfold Hashlib.hex_word. apply Forall_forall. intros c Hc.
  apply list_elem_of_fmap in Hc as (i & -> & _). apply hex_digit_is_hex.
Qed.

Lemma sha1_words_length (msg : list byte) :
  length (Hashlib.sha1_words msg) = 5.
Proof.
  unfold Hashlib.sha1_words.
  by destruct (fold_left _ _ _) as [[[[h0 h1] h2] h3] h4].
Qed.

Lemma sha1_hex_length (content : list byte) :
  String.length (sha1_hex content) = 40.
Proof.
  unfold sha1_hex, Hashlib.hexdigest.
  rewrite string_of_list_ascii_length.
  pose proof (sha1_words_length (Hashlib.fed (Hashlib.update Hashlib.new content))) as Hlen.
  destruct (Hashlib.sha1_words _) as [|h0 [|h1 [|h2 [|h3 [|h4 [|]]]]]];
    try discriminate Hlen.
  cbn [map concat]. rewrite !length_app, !hex_word_length. reflexivity.
Qed.

Lemma sha1_hex_digits (content : list byte) :
  Forall is_hex_digit (list_ascii_of_string (sha1_hex content)).
Proof.
  unfold sha1_hex, Hashlib.hexdigest.
  rewrite list_ascii_of_string_of_list_ascii.
  apply Forall_concat, Forall_fmap, Forall_forall.
  intros w _. apply hex_word_digits.
Qed.

Lemma sha1_hex_not_sentinel (content : list byte) :
  sha1_hex content <> not_checked
  /\ sha1_hex content <> new_file
  /\ sha1_hex content <> file_deleted.
Proof.
  pose proof (sha1_hex_length content) as Hlen.
  repeat split; intros Heq; rewrite Heq in Hlen; discriminate Hlen.
Qed.

Lemma hash_file_not_deleted (fs : filesystem) (p h : string) :
  hash_file fs p = Return h -> h <> file_deleted.
Proof.
  intros (content & _ & ->)%hash_file_Return.
  apply sha1_hex_not_sentinel.
Qed.

Lemma hash_file_not_new (fs : filesystem) (p h : string) :
  hash_file fs p = Return h -> h <> new_file.
Proof.
  intros (content & _ & ->)%hash_file_Return.
  apply sha1_hex_not_sentinel.
Qed.

(** ** Runs of UPDATE statements, one per row read *)

Section updates_by_location.
Context {V : Type} (val : row -> V) (change : V -> row -> row).
Hypothesis change_location :
  forall v r, file_location (change v r) = file_location r.
Hypothesis change_twice :
  forall v w r, change v (change w r) = change v r.

Lemma fold_update_where (read db : table) :
  fold_left
    (fun db r0 =>
       map (fun r =>
              if bool_decide (file_location r = file_location r0)
              then change (val r0) r else r) db)
    read db
  = map (fun r =>
           match last_written val read (file_location r) with
           | Some v => change v r
           | None => r
           end) db.
Proof using change_location change_twice.
  revert db. induction read as [|r0 read IH]; intros db; simpl.
  - by rewrite map_id.
  - rewrite IH, map_map. apply map_ext. intros r.
    destruct (bool_decide_reflect (file_location r = file_location r0)) as [Heq|Hne].
    + rewrite change_location.
      destruct (last_written val read (file_location r)) as [v|].
      * apply change_twice.
      * done.
    + by destruct (last_written val read (file_location r)) as [v|].
Qed.

Lemma last_written_None (read : table) (p : string) :
  last_written val read p = None <-> p ∉ paths read.
Proof.
  induction read as [|r0 read IH]; simpl.
  - split; [intros _; apply not_elem_of_nil|done].
  - rewrite not_elem_of_cons.
    destruct (last_written val read p) as [v|].
    + split; [done|]. intros [_ Hnot]. by apply IH in Hnot.
    + destruct (bool_decide_reflect (p = file_location r0)).
      * split; [done|]. by intros [? _].
      * split; [|done]. intros _. split; [done|]. by apply IH.
Qed.

Lemma last_written_Some (read : table) (p : string) (v : V) :
  last_written val read p = Some v ->
  exists r, r ∈ read /\ file_location r = p /\ v = val r.
Proof.
  induction read as [|r0 read IH]; simpl; [done|].
  destruct (last_written val read p) as [w|].
  - intros [= <-]. destruct IH as (r & Hin & Hloc & Hv); [done|].
    exists r. split; [by right|done].
  - destruct (bool_decide_reflect (p = file_location r0)); [|done].
    intros [= <-]. exists r0. split; [by left|done].
Qed.

Lemma last_written_unique (read : table) (r : row) :
  unique_paths read -> r ∈ read ->
  last_written val read (file_location r) = Some (val r).
Proof.
  unfold unique_paths, paths.
  induction read as [|r0 read IH]; simpl; intros Hnd Hin.
  - by apply elem_of_nil in Hin.
  - apply NoDup_cons in Hnd as [Hfresh Hnd].
    apply elem_of_cons in Hin as [->|Hin].
    + apply last_written_None in Hfresh. rewrite Hfresh.
      by rewrite bool_decide_eq_true_2.
    + by rewrite IH.
Qed.
End updates_by_location.

Lemma set_checked_location v r :
  file_location (set_checked v r) = file_location r.
Proof. done. Qed.

Lemma set_checked_twice v w r : set_checked v (set_checked w r) = set_checked v r.
Proof. done. Qed.

Lemma set_accepted_location v r :
  file_location (set_accepted v r) = file_location r.
Proof. done. Qed.

Lemma set_accepted_twice v w r :
  set_accepted v (set_accepted w r) = set_accepted v r.
Proof. done. Qed.

(** ** check_existing_files *)

Lemma check_existing_files_map (fs : filesystem) (db : table) :
  check_existing_files fs db
  = map (fun r =>
           match last_written (recheck fs) db (file_location r) with
           | Some v => set_checked v r
           | None => r
           end) db.
Proof.
  unfold check_existing_files, get_database_files.
  rewrite <- (fold_update_where (recheck fs) set_checked
                set_checked_location set_checked_twice).
  generalize db at 1 3. intros read. revert db.
  induction read as [|r0 read IH]; intros db; [done|].
  simpl. rewrite <- IH. f_equal.
  unfold recheck, sql_update_checked, set_checked.
  by destruct (hash_file fs (file_location r0)).
Qed.

Lemma check_existing_files_unique (fs : filesystem) (db : table) :
  unique_paths db ->
  check_existing_files fs db = map (fun r => set_checked (recheck fs r) r) db.
Proof.
  intros Hnd. rewrite check_existing_files_map.
  apply map_ext_in. intros r Hin%list_elem_of_In.
  by rewrite (last_written_unique (recheck fs) db r).
Qed.

Lemma check_existing_files_lookup (fs : filesystem) (db : table) i r :
  db !! i = Some r ->
  exists v, check_existing_files fs db !! i = Some (set_checked v r).
Proof.
  intros Hi. rewrite check_existing_files_map, list_lookup_fmap, Hi. simpl.
  destruct (last_written (recheck fs) db (file_location r)) as [v|] eqn:Hlast.
  - by exists v.
  - apply last_written_None in Hlast. destruct Hlast.
    apply list_elem_of_fmap. exists r. split; [done|].
    by apply list_elem_of_lookup_2 in Hi.
Qed.

Lemma check_existing_files_paths (fs : filesystem) (db : table) :
  paths (check_existing_files fs db) = paths db.
Proof.
  rewrite check_existing_files_map. unfold paths. rewrite map_map.
  apply map_ext. intros r. by destruct (last_written _ _ _).
Qed.

(** ** update_database *)

Lemma update_database_map (db : table) :
  update_database db
  = map (fun r =>
           match last_written new_hash db (file_location r) with
           | Some v => set_accepted v r
           | None => r
           end) (sql_delete_deleted db).
Proof.
  unfold update_database, get_database_files.
  rewrite <- (fold_update_where new_hash set_accepted
                set_accepted_location set_accepted_twice).
  generalize (sql_delete_deleted db) as kept. generalize db as read.
  induction read as [|r0 read IH]; intros kept; [done|].
  simpl. by rewrite <- IH.
Qed.

Lemma update_database_unique (db : table) :
  unique_paths db ->
  update_database db
  = map (fun r => set_accepted (new_hash r) r) (sql_delete_deleted db).
Proof.
  intros Hnd. rewrite update_database_map.
  apply map_ext_in. intros r Hin%list_elem_of_In.
  apply list_elem_of_filter in Hin as [_ Hin].
  by rewrite (last_written_unique new_hash db r).
Qed.

Lemma update_database_paths (db : table) :
  paths (update_database db) = paths (sql_delete_deleted db).
Proof.
  rewrite update_database_map. unfold paths. rewrite map_map.
  apply map_ext. intros r. by destruct (last_written _ _ _).
Qed.

Lemma sql_delete_deleted_unique (db : table) :
  unique_paths db -> unique_paths (sql_delete_deleted db).
Proof.
  unfold unique_paths, paths. intros Hnd.
  eapply sublist_NoDup; [exact Hnd|].
  apply fmap_sublist, sublist_filter.
Qed.

(** ** Rows made from a list of paths *)

Lemma omap_paths_sublist (f : string -> option row) (l : list string) :
  (forall p r, f p = Some r -> file_location r = p) ->
  paths (omap f l) `sublist_of` l.
Proof.
  intros Hf. induction l as [|p l IH]; simpl; [constructor|].
  destruct (f p) as [r|] eqn:Hp; simpl.
  - rewrite (Hf _ _ Hp). by apply sublist_skip.
  - by apply sublist_cons.
Qed.

Lemma initial_location fs p r : initial fs p = Some r -> file_location r = p.
Proof. unfold initial. destruct (hash_file fs p); [|done]. by intros [= <-]. Qed.

Lemma discovered_location fs dbf p r :
  discovered fs dbf p = Some r -> file_location r = p.
Proof.
  unfold discovered. case_bool_decide; [done|].
  destruct (hash_file fs p); [|done]. by intros [= <-].
Qed.

(** ** init_database *)

Lemma init_database_rows (cfg : config) (fs : filesystem) (db : table) :
  init_database cfg fs db
  = omap (initial fs) (iter_set (get_config_files cfg fs)).
Proof.
  unfold init_database.
  match goal with
  | |- fold_left ?f ?l [] = _ =>
      assert (forall l' (db0 : table),
                 fold_left f l' db0 = db0 ++ omap (initial fs) l') as Hloop
  end.
  { induction l' as [|p l' IH]; intros db0; simpl.
    - by rewrite app_nil_r.
    - rewrite IH. unfold initial, sql_insert_initial.
      destruct (hash_file fs p); simpl; [|done].
      by rewrite <- app_assoc. }
  by rewrite Hloop.
Qed.

Lemma init_database_unique (cfg : config) (fs : filesystem) (db : table) :
  unique_paths (init_database cfg fs db).
Proof.
  rewrite init_database_rows. unfold unique_paths.
  eapply sublist_NoDup; [apply (NoDup_elements (get_config_files cfg fs))|].
  apply omap_paths_sublist, initial_location.
Qed.

(** ** check_new_files *)

Lemma check_new_files_outcome (cfg : config) (fs : filesystem) (db : table) :
  let config_files := iter_set (get_config_files cfg fs) in
  let database_files : gset string := list_to_set (paths db) in
  check_new_files cfg fs db
  = if existsb (escapes fs database_files) config_files
    then Raise MemoryError
    else Return (db ++ omap (discovered fs database_files) config_files).
Proof.
  intros config_files database_files.
  unfold check_new_files, get_database_files.
  fold (paths db). fold database_files. fold config_files.
  match goal with
  | |- fold_left ?f _ _ = _ =>
      assert (forall l e, fold_left f l (Raise e) = Raise e) as Hraise;
      [|assert (forall l (db0 : table),
                   fold_left f l (Return db0)
                   = if existsb (escapes fs database_files) l
                     then Raise MemoryError
                     else Return (db0 ++ omap (discovered fs database_files) l))
          as Hloop]
  end.
  { induction l as [|p l IH]; intros e; [done|]. simpl. apply IH. }
  { induction l as [|p l IH]; intros db0; simpl.
    - by rewrite app_nil_r.
    - unfold escapes at 1, discovered at 1.
      destruct (bool_decide (p ∈ database_files)); simpl; [apply IH|].
      destruct (hash_file fs p) as [h|[]]; simpl.
      + rewrite IH. unfold sql_insert_new. simpl.
        by rewrite <- app_assoc.
      + apply IH.
      + apply Hraise. }
  apply Hloop.
Qed.

Lemma check_new_files_committed (cfg : config) (fs : filesystem) (db : table) :
  exists added,
    committed db (check_new_files cfg fs db) = db ++ added
    /\ paths added `sublist_of` iter_set (get_config_files cfg fs)
    /\ forall r, r ∈ added ->
         (file_location r ∉ paths db)
         /\ original_hash r = new_file
         /\ is_modified r = 1%Z
         /\ hash_file fs (file_location r) = Return (new_hash r).
Proof.
  assert (forall r p, discovered fs (list_to_set (paths db)) p = Some r ->
            (file_location r ∉ paths db)
            /\ original_hash r = new_file
            /\ is_modified r = 1%Z
            /\ hash_file fs (file_location r) = Return (new_hash r)) as Hrow.
  { intros r p. unfold discovered. case_bool_decide as Hin; [done|].
    destruct (hash_file fs p) as [h|] eqn:Hh; [|done].
    intros [= <-]. simpl. rewrite elem_of_list_to_set in Hin. done. }
  rewrite check_new_files_outcome. cbv zeta.
  destruct (existsb _ _); simpl.
  - exists []. rewrite app_nil_r. split; [done|]. split.
    + apply sublist_nil_l.
    + intros r Hr. by apply elem_of_nil in Hr.
  - eexists. split; [done|]. split.
    + apply omap_paths_sublist. intros p r. apply discovered_location.
    + intros r (p & _ & Hp)%list_elem_of_omap. by eapply Hrow.
Qed.

(** ** The removal loop of get_config_files *)

Lemma list_remove_middle (d : string) (pre rest : list string) :
  d ∉ pre -> list_remove d (pre ++ d :: rest) = pre ++ rest.
Proof.
  induction pre as [|x pre IH]; simpl; intros Hd.
  - by rewrite decide_True.
  - apply not_elem_of_cons in Hd as [Hne Hd].
    rewrite decide_False by done. by rewrite IH.
Qed.

Lemma list_remove_length (d : string) (l : list string) :
  length (list_remove d l) <= length l.
Proof.
  induction l as [|x l IH]; simpl; [done|].
  case_decide; simpl; lia.
Qed.

(** The loop stops by itself within as many steps as the listing has
    names: more steps change nothing. *)
Lemma remove_excluded_loop_fuel cfg dirpath steps more i (dirs : list string) :
  length dirs <= i + steps ->
  remove_excluded_loop cfg dirpath (steps + more) i dirs
  = remove_excluded_loop cfg dirpath steps i dirs.
Proof.
  revert i dirs. induction steps as [|steps IH]; intros i dirs Hlen; simpl.
  - destruct more; [done|]. simpl. by rewrite lookup_ge_None_2 by lia.
  - destruct (dirs !! i) as [d|]; [|done].
    case_bool_decide; apply IH; [|lia].
    pose proof (list_remove_length d dirs). lia.
Qed.

Lemma remove_excluded_loop_split cfg dirpath steps (pre rest : list string) :
  NoDup (pre ++ rest) ->
  length rest <= steps ->
  remove_excluded_loop cfg dirpath steps (length pre) (pre ++ rest)
  = pre ++ after_removal cfg dirpath rest.
Proof.
  revert pre rest.
  induction steps as [|steps IH]; intros pre rest Hnd Hlen.
  - destruct rest; [done|simpl in Hlen; lia].
  - simpl. rewrite lookup_app_r, Nat.sub_diag by lia.
    destruct rest as [|d rest]; [done|]. simpl in *.
    assert (d ∉ pre) as Hd.
    { apply NoDup_app in Hnd as (_ & Hdisj & _).
      intros Hin. apply (Hdisj d Hin). by left. }
    assert (NoDup ((pre ++ [d]) ++ rest)) as Hnd' by by rewrite <- app_assoc.
    assert (S (length pre) = length (pre ++ [d])) as Hidx
      by (rewrite length_app; simpl; lia).
    case_bool_decide.
    + rewrite list_remove_middle by done.
      destruct rest as [|d' rest].
      * rewrite app_nil_r. destruct steps; [done|].
        simpl. by rewrite lookup_ge_None_2 by lia.
      * assert (S (length pre) = length (pre ++ [d'])) as ->
          by (rewrite length_app; simpl; lia).
        replace (pre ++ d' :: rest) with ((pre ++ [d']) ++ rest)
          by by rewrite <- app_assoc.
        rewrite IH; [by rewrite <- app_assoc| |simpl in Hlen; lia].
        rewrite <- app_assoc. simpl.
        apply NoDup_app in Hnd as (Hpre & Hdisj & Hrest).
        apply NoDup_cons in Hrest as [_ Hrest].
        apply NoDup_app. split; [done|]. split; [|done].
        intros x Hx Hx'. apply (Hdisj x Hx). by right.
    + rewrite Hidx.
      replace (pre ++ d :: rest) with ((pre ++ [d]) ++ rest)
        by by rewrite <- app_assoc.
      rewrite IH; [by rewrite <- app_assoc|done|lia].
Qed.

Lemma remove_excluded_distinct cfg dirpath (dirs : list string) :
  NoDup dirs ->
  remove_excluded cfg dirpath dirs = after_removal cfg dirpath dirs.
Proof.
  intros Hnd. unfold remove_excluded.
  by rewrite (remove_excluded_loop_split cfg dirpath _ [] dirs).
Qed.

Lemma after_removal_clean cfg dirpath (dirs : list string) :
  excluded_neighbours cfg dirpath dirs = false ->
  forall name, name ∈ after_removal cfg dirpath dirs ->
    os_path_join dirpath name ∉ exclude_dirs cfg.
Proof.
  remember (length dirs) as n eqn:Hn.
  assert (length dirs <= n) as Hlen by lia. clear Hn.
  revert dirs Hlen.
  induction n as [|n IH]; intros dirs Hlen Hplain name Hin.
  - destruct dirs; [by apply elem_of_nil in Hin|simpl in Hlen; lia].
  - destruct dirs as [|d rest]; [by apply elem_of_nil in Hin|].
    simpl in Hlen, Hin.
    assert (excluded_neighbours cfg dirpath rest = false) as Hrest.
    { simpl in Hplain. destruct rest; [done|].
      by apply orb_false_iff in Hplain as [_ ?]. }
    case_bool_decide as Hd.
    + destruct rest as [|d' rest']; [by apply elem_of_nil in Hin|].
      simpl in Hplain.
      rewrite (bool_decide_eq_true_2 _ Hd) in Hplain.
      apply orb_false_iff in Hplain as [Hd' _]. simpl in Hd'.
      apply bool_decide_eq_false in Hd'.
      apply elem_of_cons in Hin as [->|Hin]; [done|].
      apply (IH rest'); [simpl in Hlen; lia| |done].
      simpl in Hrest. destruct rest'; [done|].
      by apply orb_false_iff in Hrest as [_ ?].
    + apply elem_of_cons in Hin as [->|Hin]; [done|].
      apply (IH rest); [lia|done|done].
Qed.

(** With distinct names and no two excluded neighbours, the loop leaves
    no excluded name in the listing. *)
Lemma remove_excluded_clean cfg dirpath (dirs : list string) :
  NoDup dirs ->
  excluded_neighbours cfg dirpath dirs = false ->
  forall name, name ∈ remove_excluded cfg dirpath dirs ->
    os_path_join dirpath name ∉ exclude_dirs cfg.
Proof.
  intros Hnd Hplain name. rewrite remove_excluded_distinct by done.
  by apply after_removal_clean.
Qed.

(** ** os.walk *)

Lemma os_walk_elem edit top subdirs files (y : string * list string * list string) :
  y ∈ os_walk edit top (Dir subdirs files) <->
  y = (top, edit top (map fst subdirs), files)
  \/ exists name sub,
       (name, sub) ∈ subdirs
       /\ name ∈ edit top (map fst subdirs)
       /\ y ∈ os_walk edit (os_path_join top name) sub.
Proof.
  simpl. rewrite elem_of_cons.
  generalize (edit top (map fst subdirs)) as dirs. intros dirs.
  apply or_iff_compat_l.
  induction subdirs as [|[name sub] entries IH].
  - split; [by intros ?%elem_of_nil|].
    by intros (? & ? & ?%elem_of_nil & _).
  - rewrite elem_of_app, IH. clear IH. split.
    + intros [Hy|(name' & sub' & Hin & Hkept & Hy)].
      * case_bool_decide; [|by apply elem_of_nil in Hy].
        exists name, sub. split; [by left|done].
      * exists name', sub'. split; [by right|done].
    + intros (name' & sub' & Hin & Hkept & Hy).
      apply elem_of_cons in Hin as [[= -> ->]|Hin].
      * left. by rewrite bool_decide_eq_true_2.
      * right. by exists name', sub'.
Qed.

Lemma plain_listings_Dir cfg top subdirs files :
  plain_listings cfg top (Dir subdirs files) = true ->
  NoDup (map fst subdirs)
  /\ excluded_neighbours cfg top (map fst subdirs) = false
  /\ forall name sub, (name, sub) ∈ subdirs ->
       plain_listings cfg (os_path_join top name) sub = true.
Proof.
  simpl. intros [[Hnd Hplain]%andb_true_iff Hall]%andb_true_iff.
  split; [by apply bool_decide_eq_true in Hnd|].
  split; [by apply negb_true_iff|].
  clear Hnd Hplain.
  induction subdirs as [|[name sub] entries IH]; intros name' sub' Hin.
  - by apply elem_of_nil in Hin.
  - apply andb_true_iff in Hall as [Hsub Hall].
    apply elem_of_cons in Hin as [[= -> ->]|Hin]; [done|].
    by apply IH.
Qed.

(** Every file of a yielded directory is a file of the tree, and in a
    tree with plain listings no directory entered to reach it is
    excluded. *)
Lemma os_walk_reaches cfg (t : dir_tree) :
  forall top dirpath dirs files f,
    (dirpath, dirs, files) ∈ os_walk (remove_excluded cfg) top t ->
    f ∈ files ->
    exists chain,
      reaches top t chain (os_path_join dirpath f)
      /\ (plain_listings cfg top t = true ->
          forall d, d ∈ chain -> d ∉ exclude_dirs cfg).
Proof.
  induction t as [subdirs files0 IH] using dir_tree_ind.
  intros top dirpath dirs files f Hy Hf.
  apply os_walk_elem in Hy as [[= -> _ ->]|(name & sub & Hin & Hkept & Hy)].
  - exists []. split; [by constructor|].
    intros _ d Hd. by apply elem_of_nil in Hd.
  - rewrite Forall_forall in IH.
    destruct (IH (name, sub) Hin _ _ _ _ _ Hy Hf) as (chain & Hreach & Hclean).
    exists (os_path_join top name :: chain). split.
    + by apply reaches_below with (sub := sub).
    + intros (Hnd & Hplain & Hsubs)%plain_listings_Dir d Hd.
      apply elem_of_cons in Hd as [->|Hd].
      * by apply (remove_excluded_clean cfg top (map fst subdirs)).
      * apply Hclean; [|done]. by apply (Hsubs name sub).
Qed.

(** ** get_config_files *)

Lemma add_files_elem cfg (config_files : gset string) dirpath dirs files p :
  p ∈ add_files cfg config_files (dirpath, dirs, files) <->
  p ∈ config_files
  \/ exists f, f ∈ files /\ p = os_path_join dirpath f /\ p ∉ exclude_files cfg.
Proof.
  unfold add_files. revert config_files.
  induction files as [|f0 files IH]; intros config_files; simpl.
  - split; [by left|]. intros [?|(f & ?%elem_of_nil & _)]; done.
  - rewrite IH. clear IH. case_bool_decide as Hex.
    + split.
      * intros [?|(f & Hf & ? & ?)]; [by left|].
        right. exists f. split; [by right|done].
      * intros [?|(f & Hf & -> & ?)]; [by left|].
        apply elem_of_cons in Hf as [->|Hf]; [done|].
        right. by exists f.
    + rewrite elem_of_union, elem_of_singleton. split.
      * intros [[->|?]|(f & Hf & ? & ?)].
        -- right. exists f0. split; [by left|done].
        -- by left.
        -- right. exists f. split; [by right|done].
      * intros [?|(f & Hf & -> & ?)]; [left; by right|].
        apply elem_of_cons in Hf as [->|Hf]; [left; by left|].
        right. by exists f.
Qed.

Lemma add_files_fold_elem cfg yields (config_files : gset string) p :
  p ∈ fold_left (add_files cfg) yields config_files <->
  p ∈ config_files
  \/ exists dirpath dirs files f,
       (dirpath, dirs, files) ∈ yields
       /\ f ∈ files /\ p = os_path_join dirpath f /\ p ∉ exclude_files cfg.
Proof.
  revert config_files.
  induction yields as [|[[dirpath dirs] files] yields IH];
    intros config_files; cbn [fold_left].
  - split; [by left|].
    intros [?|(? & ? & ? & ? & ?%elem_of_nil & _)]; done.
  - rewrite IH, add_files_elem. clear IH. split.
    + intros [[?|(f & ? & ? & ?)]|(dp & ds & fl & f & Hy & ?)].
      * by left.
      * right. exists dirpath, dirs, files, f. split; [by left|done].
      * right. exists dp, ds, fl, f. split; [by right|done].
    + intros [?|(dp & ds & fl & f & Hy & ?)]; [left; by left|].
      apply elem_of_cons in Hy as [[= -> -> ->]|Hy].
      * left. right. by exists f.
      * right. by exists dp, ds, fl, f.
Qed.

(** The resolved set: the listed files, and the files that the walks
    yield and that are not excluded one by one. *)
Lemma get_config_files_elem cfg fs p :
  p ∈ get_config_files cfg fs <->
  p ∈ include_files cfg
  \/ exists include_dir dirpath dirs files f,
       include_dir ∈ include_dirs cfg
       /\ (dirpath, dirs, files) ∈ walk_from cfg fs include_dir
       /\ f ∈ files /\ p = os_path_join dirpath f /\ p ∉ exclude_files cfg.
Proof.
  unfold get_config_files, iter_set.
  assert (forall (l : list string) (acc : gset string),
            p ∈ fold_left
                  (fun config_files include_dir =>
                     fold_left (add_files cfg) (walk_from cfg fs include_dir)
                       config_files) l acc <->
            p ∈ acc
            \/ exists include_dir dirpath dirs files f,
                 include_dir ∈ l
                 /\ (dirpath, dirs, files) ∈ walk_from cfg fs include_dir
                 /\ f ∈ files /\ p = os_path_join dirpath f
                 /\ p ∉ exclude_files cfg) as Hloop.
  { induction l as [|d l IH]; intros acc; cbn [fold_left].
    - split; [by left|].
      intros [?|(? & ? & ? & ? & ? & ?%elem_of_nil & _)]; done.
    - rewrite IH, add_files_fold_elem. clear IH. split.
      + intros [[?|(dp & ds & fl & f & ?)]|(d' & dp & ds & fl & f & Hd & ?)].
        * by left.
        * right. exists d, dp, ds, fl, f. split; [by left|done].
        * right. exists d', dp, ds, fl, f. split; [by right|done].
      + intros [?|(d' & dp & ds & fl & f & Hd & ?)]; [left; by left|].
        apply elem_of_cons in Hd as [->|Hd].
        * left. right. by exists dp, ds, fl, f.
        * right. by exists d', dp, ds, fl, f. }
  rewrite Hloop. apply or_iff_compat_l.
  split; intros (d & dp & ds & fl & f & Hd & ?); exists d, dp, ds, fl, f;
    (split; [by apply elem_of_elements|done]).
Qed.

(** ** The resolved file set *)

(** The loop over a listing with two excluded neighbours removes the
    first and never reads the second: the walk then enters it. *)
Example remove_excluded_skips_neighbour :
  remove_excluded Examples.monitor_data_only "/data" ["cache"; "tmp"] = ["tmp"]
  /\ "/data/tmp" ∈ exclude_dirs Examples.monitor_data_only
  /\ "/data/tmp/t.bin"
       ∈ get_config_files Examples.monitor_data_only Examples.data_disk.
Proof.
  split; [reflexivity|].
  split; apply (bool_decide_unpack _); vm_compute; exact I.
Qed.

(** C1, as worded, fails: a file listed in [include_files] is returned
    although it is also in [exclude_files]. *)
Lemma exclusion_listed_file_counterexample :
  ~ exclusion_respected Examples.listed_and_excluded Examples.empty_disk.
Proof.
  intros Hrule. apply (Hrule "/etc/passwd").
  - left. apply (bool_decide_unpack _). vm_compute. exact I.
  - apply get_config_files_elem. left.
    apply (bool_decide_unpack _). vm_compute. exact I.
Qed.

(** C1, amended: a path returned by [get_config_files] that is not listed
    in [include_files] is not in [exclude_files], and it is a file of the
    tree of an include directory; when the listings of that tree have no
    two excluded neighbours, none of the directories entered below the
    include directory to reach the file is in [exclude_dirs]. *)
Theorem get_config_files_exclusion (cfg : config) (fs : filesystem) (p : string) :
  p ∈ get_config_files cfg fs ->
  p ∉ include_files cfg ->
  (p ∉ exclude_files cfg)
  /\ exists include_dir t chain,
       include_dir ∈ include_dirs cfg
       /\ fs_dirs fs !! include_dir = Some t
       /\ reaches include_dir t chain p
       /\ (plain_listings cfg include_dir t = true ->
           forall d, d ∈ chain -> d ∉ exclude_dirs cfg).
Proof.
  intros Hp Hlisted.
  apply get_config_files_elem in Hp
    as [?|(root & dirpath & dirs & files & f & Hroot & Hy & Hf & -> & Hex)];
    [done|].
  split; [done|].
  unfold walk_from in Hy.
  destruct (fs_dirs fs !! root) as [t|] eqn:Ht; [|by apply elem_of_nil in Hy].
  destruct (os_walk_reaches cfg t _ _ _ _ _ Hy Hf) as (chain & Hreach & Hclean).
  by exists root, t, chain.
Qed.

Lemma get_config_files_exclusion_witness :
  ("/data/tmp/t.bin" ∉ exclude_files Examples.monitor_data)
  /\ exists include_dir t chain,
       include_dir ∈ include_dirs Examples.monitor_data
       /\ fs_dirs Examples.data_disk !! include_dir = Some t
       /\ reaches include_dir t chain "/data/tmp/t.bin"
       /\ forall d, d ∈ chain -> d ∉ exclude_dirs Examples.monitor_data.
Proof.
  destruct (get_config_files_exclusion Examples.monitor_data
              Examples.data_disk "/data/tmp/t.bin")
    as (Hfile & root & t & chain & Hroot & Ht & Hreach & Hclean).
  - apply (bool_decide_unpack _). vm_compute. exact I.
  - apply (bool_decide_unpack _). vm_compute. exact I.
  - split; [exact Hfile|]. exists root, t, chain.
    split; [exact Hroot|]. split; [exact Ht|]. split; [exact Hreach|].
    apply Hclean.
    pose proof Hroot as Hdata. simpl in Hdata.
    apply elem_of_singleton in Hdata. subst root.
    vm_compute in Ht. injection Ht as <-. vm_compute. reflexivity.
Defined.

(** C10: every path of [include_files] is in the set that
    [get_config_files] returns, whatever the exclusions and whatever the
    file system holds. *)
Theorem include_files_always_resolved (cfg : config) (fs : filesystem) (p : string) :
  p ∈ include_files cfg -> p ∈ get_config_files cfg fs.
Proof. intros Hp. apply get_config_files_elem. by left. Qed.

Lemma include_files_always_resolved_witness :
  "/etc/hosts" ∈ exclude_files Examples.monitor_data
  /\ "/etc/hosts" ∈ get_config_files Examples.monitor_data Examples.empty_disk.
Proof.
  split.
  - apply (bool_decide_unpack _). vm_compute. exact I.
  - apply (include_files_always_resolved Examples.monitor_data Examples.empty_disk).
    apply (bool_decide_unpack _). vm_compute. exact I.
Defined.

(** ** Hashes and sentinels *)

(** C9: a hash that [hash_file] returns has 40 characters, all of them
    lower-case hexadecimal digits, so it is none of the three sentinels;
    the [DELETE] of [update_database] keeps every row whose [new_hash] is
    such a hash, and its path is still in the table after the update. *)
Theorem hash_file_never_sentinel (fs : filesystem) (p h : string) :
  hash_file fs p = Return h ->
  String.length h = 40
  /\ Forall is_hex_digit (list_ascii_of_string h)
  /\ h <> not_checked /\ h <> new_file /\ h <> file_deleted
  /\ forall (db : table) r,
       r ∈ db -> new_hash r = h ->
       r ∈ sql_delete_deleted db
       /\ file_location r ∈ paths (update_database db).
Proof.
  intros Hh.
  pose proof (hash_file_not_deleted _ _ _ Hh) as Hkept.
  apply hash_file_Return in Hh as (content & _ & ->).
  split; [apply sha1_hex_length|].
  split; [apply sha1_hex_digits|].
  destruct (sha1_hex_not_sentinel content) as (? & ? & ?).
  do 3 (split; [done|]).
  intros db r Hr Hnew.
  assert (r ∈ sql_delete_deleted db) as Hin.
  { apply list_elem_of_filter. split; [|done]. by rewrite Hnew. }
  split; [done|].
  rewrite update_database_paths. apply list_elem_of_fmap. by exists r.
Qed.

Lemma hash_file_never_sentinel_witness :
  String.length "a9993e364706816aba3e25717850c26c9cd0d89d" = 40
  /\ Forall is_hex_digit
       (list_ascii_of_string "a9993e364706816aba3e25717850c26c9cd0d89d")
  /\ "a9993e364706816aba3e25717850c26c9cd0d89d" <> not_checked
  /\ "a9993e364706816aba3e25717850c26c9cd0d89d" <> new_file
  /\ "a9993e364706816aba3e25717850c26c9cd0d89d" <> file_deleted
  /\ forall (db : table) r,
       r ∈ db -> new_hash r = "a9993e364706816aba3e25717850c26c9cd0d89d" ->
       r ∈ sql_delete_deleted db
       /\ file_location r ∈ paths (update_database db).
Proof.
  apply (hash_file_never_sentinel Examples.data_disk "/data/a.txt").
  vm_compute. reflexivity.
Defined.

(** ** init *)


(** ** diff *)

Lemma unique_paths_same_row (db : table) r r' :
  unique_paths db -> r ∈ db -> r' ∈ db ->
  file_location r = file_location r' -> r = r'.
Proof.
  unfold unique_paths, paths.
  induction db as [|x db IH]; intros Hnd Hr Hr' Hloc.
  - by apply elem_of_nil in Hr.
  - simpl in Hnd. apply NoDup_cons in Hnd as [Hfresh Hnd].
    apply elem_of_cons in Hr as [->|Hr]; apply elem_of_cons in Hr' as [->|Hr'].
    + done.
    + destruct Hfresh. rewrite Hloc. apply list_elem_of_fmap. by exists r'.
    + destruct Hfresh. rewrite <- Hloc. apply list_elem_of_fmap. by exists r.
    + by apply IH.
Qed.

(** C2: when no two rows share a path, [check_existing_files] leaves
    every row in its place with its path and [original_hash]; if hashing
    its path raised, whatever the exception, [new_hash] is "File deleted."
    and [is_modified] is 1; if hashing returned [h], [new_hash] is [h] and
    [is_modified] is 1 when [h] differs from [original_hash] and 0 when it
    does not.  The function returns a table in every case. *)
Theorem check_existing_files_reclassifies (fs : filesystem) (db : table)
    (i : nat) (r : row) :
  unique_paths db ->
  db !! i = Some r ->
  exists r',
    check_existing_files fs db !! i = Some r'
    /\ file_location r' = file_location r
    /\ original_hash r' = original_hash r
    /\ match hash_file fs (file_location r) with
       | Raise _ => new_hash r' = file_deleted /\ is_modified r' = 1%Z
       | Return h =>
           new_hash r' = h
           /\ (is_modified r' = 1%Z <-> h <> original_hash r)
           /\ (is_modified r' = 0%Z <-> h = original_hash r)
       end.
Proof.
  intros Hnd Hi.
  rewrite check_existing_files_unique by done.
  rewrite list_lookup_fmap, Hi. simpl.
  eexists. split; [done|]. split; [done|]. split; [done|].
  unfold recheck. simpl.
  destruct (hash_file fs (file_location r)) as [h|e]; simpl; [|done].
  split; [done|].
  case_bool_decide as Hdiff.
  - split; split; try done.
  - assert (h = original_hash r) by (destruct (decide (h = original_hash r)); done).
    split; split; try done.
Qed.

Lemma check_existing_files_reclassifies_witness :
  exists r',
    check_existing_files Examples.data_disk Examples.baseline !! 1 = Some r'
    /\ file_location r' = "/data/old.txt"
    /\ original_hash r' = "da39a3ee5e6b4b0d3255bfef95601890afd80709"
    /\ new_hash r' = file_deleted /\ is_modified r' = 1%Z.
Proof.
  apply (check_existing_files_reclassifies Examples.data_disk Examples.baseline 1
           {| file_location := "/data/old.txt";
              original_hash := "da39a3ee5e6b4b0d3255bfef95601890afd80709";
              new_hash := not_checked; is_modified := 0 |}).
  - apply (bool_decide_unpack _). vm_compute. exact I.
  - reflexivity.
Defined.

(** The [UPDATE] is keyed by the path alone: in a table where two rows
    share a path, both get the verdict of the row read last. *)
Example check_existing_files_shared_path :
  map (fun r => (original_hash r, new_hash r, is_modified r))
    (check_existing_files Examples.data_disk Examples.shared_path)
  = [("a9993e364706816aba3e25717850c26c9cd0d89d",
      "a9993e364706816aba3e25717850c26c9cd0d89d", 1%Z);
     ("da39a3ee5e6b4b0d3255bfef95601890afd80709",
      "a9993e364706816aba3e25717850c26c9cd0d89d", 1%Z)].
Proof. vm_compute. reflexivity. Qed.

Lemma diff_rows (cfg : config) (fs : filesystem) (db : table) :
  exists added,
    diff cfg fs db = check_existing_files fs db ++ added
    /\ paths added `sublist_of` iter_set (get_config_files cfg fs)
    /\ forall r, r ∈ added ->
         (file_location r ∉ paths db)
         /\ original_hash r = new_file
         /\ is_modified r = 1%Z
         /\ hash_file fs (file_location r) = Return (new_hash r).
Proof.
  unfold diff.
  destruct (check_new_files_committed cfg fs (check_existing_files fs db))
    as (added & Heq & Hsub & Hrows).
  exists added. split; [done|]. split; [done|].
  intros r Hr. rewrite <- (check_existing_files_paths fs db). by apply Hrows.
Qed.

(** C6: [diff] keeps every row of the table in its place, with its path
    and its [original_hash]. *)
Theorem diff_only_observes (cfg : config) (fs : filesystem) (db : table)
    (i : nat) (r : row) :
  db !! i = Some r ->
  exists r',
    diff cfg fs db !! i = Some r'
    /\ file_location r' = file_location r
    /\ original_hash r' = original_hash r.
Proof.
  intros Hi.
  destruct (diff_rows cfg fs db) as (added & -> & _).
  destruct (check_existing_files_lookup fs db i r Hi) as (v & Hv).
  exists (set_checked v r). split; [|done].
  by apply lookup_app_l_Some.
Qed.

Lemma diff_only_observes_witness :
  exists r',
    diff Examples.monitor_data Examples.data_disk Examples.baseline !! 1 = Some r'
    /\ file_location r' = "/data/old.txt"
    /\ original_hash r' = "da39a3ee5e6b4b0d3255bfef95601890afd80709".
Proof.
  apply (diff_only_observes Examples.monitor_data Examples.data_disk
           Examples.baseline 1
           {| file_location := "/data/old.txt";
              original_hash := "da39a3ee5e6b4b0d3255bfef95601890afd80709";
              new_hash := not_checked; is_modified := 0 |}).
  reflexivity.
Defined.

(** ** Uniqueness of paths *)

Lemma check_new_files_unique (cfg : config) (fs : filesystem) (db : table) :
  unique_paths db -> unique_paths (committed db (check_new_files cfg fs db)).
Proof.
  intros Hnd.
  destruct (check_new_files_committed cfg fs db) as (added & -> & Hsub & Hrows).
  unfold unique_paths, paths. rewrite map_app. apply NoDup_app.
  split; [done|]. split.
  - intros p Hp (r & -> & Hr)%list_elem_of_fmap.
    by destruct (Hrows r Hr) as [Hfresh _].
  - eapply sublist_NoDup; [|exact Hsub].
    apply (NoDup_elements (get_config_files cfg fs)).
Qed.

Lemma check_existing_files_keeps_unique (fs : filesystem) (db : table) :
  unique_paths db -> unique_paths (check_existing_files fs db).
Proof. unfold unique_paths. by rewrite check_existing_files_paths. Qed.

Lemma diff_unique (cfg : config) (fs : filesystem) (db : table) :
  unique_paths db -> unique_paths (diff cfg fs db).
Proof.
  intros Hnd. unfold diff.
  by apply check_new_files_unique, check_existing_files_keeps_unique.
Qed.

Lemma update_database_keeps_unique (db : table) :
  unique_paths db -> unique_paths (update_database db).
Proof.
  intros Hnd. unfold unique_paths. rewrite update_database_paths.
  by apply sql_delete_deleted_unique.
Qed.

(** C8: [init_database] leaves a table in which no two rows share a path,
    and from a table with that property each of [init_database],
    [check_existing_files], [check_new_files] (whether it returns or
    raises), the whole [diff] and [update_database] leaves a table with
    that property. *)
Theorem unique_paths_invariant (cfg : config) (fs : filesystem) (db : table) :
  unique_paths db ->
  unique_paths (init_database cfg fs db)
  /\ unique_paths (check_existing_files fs db)
  /\ unique_paths (committed db (check_new_files cfg fs db))
  /\ unique_paths (diff cfg fs db)
  /\ unique_paths (update_database db).
Proof.
  intros Hnd.
  split; [apply init_database_unique|].
  split; [by apply check_existing_files_keeps_unique|].
  split; [by apply check_new_files_unique|].
  split; [by apply diff_unique|].
  by apply update_database_keeps_unique.
Qed.

Lemma unique_paths_invariant_witness :
  unique_paths (init_database Examples.monitor_data Examples.data_disk Examples.baseline)
  /\ unique_paths (check_existing_files Examples.data_disk Examples.baseline)
  /\ unique_paths
       (committed Examples.baseline
          (check_new_files Examples.monitor_data Examples.data_disk Examples.baseline))
  /\ unique_paths (diff Examples.monitor_data Examples.data_disk Examples.baseline)
  /\ unique_paths (update_database Examples.baseline).
Proof.
  apply (unique_paths_invariant Examples.monitor_data Examples.data_disk
           Examples.baseline).
  apply (bool_decide_unpack _). vm_compute. exact I.
Defined.

(** ** Running diff again *)

Lemma last_written_app {V} (val : row -> V) (read read' : table) (p : string) :
  last_written val (read ++ read') p
  = match last_written val read' p with
    | Some v => Some v
    | None => last_written val read p
    end.
Proof.
  induction read as [|r read IH]; simpl.
  - by destruct (last_written val read' p).
  - rewrite IH. by destruct (last_written val read' p).
Qed.

Lemma last_written_map {V} (val : row -> V) (g : row -> row) (read : table)
    (p : string) :
  (forall r, file_location (g r) = file_location r) ->
  (forall r, val (g r) = val r) ->
  last_written val (map g read) p = last_written val read p.
Proof.
  intros Hloc Hval. induction read as [|r read IH]; simpl; [done|].
  by rewrite IH, Hloc, Hval.
Qed.

Lemma recheck_same (fs : filesystem) (r r' : row) :
  file_location r = file_location r' ->
  original_hash r = original_hash r' ->
  recheck fs r = recheck fs r'.
Proof. unfold recheck. by intros -> ->. Qed.

Lemma last_written_recheck (fs : filesystem) (db : table) (p : string) :
  last_written (recheck fs) (check_existing_files fs db) p
  = last_written (recheck fs) db p.
Proof.
  rewrite check_existing_files_map. apply last_written_map.
  - intros r. by destruct (last_written _ _ _).
  - intros r. apply recheck_same; by destruct (last_written _ _ _).
Qed.

(** A second pass over the rows of a first pass, and over the rows that
    the discovery added to them, changes nothing. *)
Lemma check_existing_files_settled (fs : filesystem) (db added : table) :
  (forall r, r ∈ added ->
     (file_location r ∉ paths db)
     /\ original_hash r = new_file
     /\ is_modified r = 1%Z
     /\ hash_file fs (file_location r) = Return (new_hash r)) ->
  check_existing_files fs (check_existing_files fs db ++ added)
  = check_existing_files fs db ++ added.
Proof.
  intros Hadded.
  rewrite (check_existing_files_map fs (_ ++ _)).
  rewrite <- (map_id (_ ++ _)) at 2.
  apply map_ext_in. intros r Hr%list_elem_of_In.
  rewrite last_written_app.
  apply elem_of_app in Hr as [Hr|Hr].
  - assert (last_written (recheck fs) added (file_location r) = None) as ->.
    { apply last_written_None. intros (r' & Hloc & Hr')%list_elem_of_fmap.
      destruct (Hadded r' Hr') as [Hfresh _]. apply Hfresh.
      rewrite <- Hloc, <- (check_existing_files_paths fs db).
      apply list_elem_of_fmap. by exists r. }
    rewrite last_written_recheck.
    rewrite check_existing_files_map in Hr.
    apply list_elem_of_fmap in Hr as (r0 & -> & Hr0).
    destruct (last_written (recheck fs) db (file_location r0)) as [v|] eqn:Hv;
      simpl; by rewrite Hv.
  - destruct (last_written (recheck fs) added (file_location r)) as [v|] eqn:Hv.
    + apply last_written_Some in Hv as (r' & Hr' & Hloc & ->).
      destruct (Hadded r Hr) as (_ & Horig & Hmod & Hhash).
      destruct (Hadded r' Hr') as (_ & Horig' & _ & _).
      rewrite (recheck_same fs r' r) by congruence.
      unfold recheck. rewrite Hhash, Horig.
      rewrite bool_decide_eq_true_2 by by eapply hash_file_not_new.
      destruct r as [loc orig new modified]. simpl in *. by subst.
    + apply last_written_None in Hv. destruct Hv.
      apply list_elem_of_fmap. by exists r.
Qed.

Lemma omap_nil {A B} (f : A -> option B) (l : list A) :
  (forall x, x ∈ l -> f x = None) -> omap f l = [].
Proof.
  induction l as [|x l IH]; intros Hf; simpl; [done|].
  rewrite Hf by by left. apply IH. intros y Hy. apply Hf. by right.
Qed.

(** Discovery finds nothing new right after a discovery. *)
Lemma check_new_files_settled (cfg : config) (fs : filesystem) (db : table) :
  let db' := committed db (check_new_files cfg fs db) in
  committed db' (check_new_files cfg fs db') = db'.
Proof.
  intros db'. subst db'.
  rewrite (check_new_files_outcome cfg fs db). cbv zeta.
  destruct (existsb _ _) eqn:Hesc; simpl.
  - rewrite (check_new_files_outcome cfg fs db). cbv zeta. by rewrite Hesc.
  - set (found := omap _ _).
    rewrite check_new_files_outcome. cbv zeta.
    clear Hesc.
    rewrite omap_nil; [rewrite app_nil_r; by destruct (existsb _ _)|].
    intros p Hp. unfold discovered at 1.
    case_bool_decide as Hknown; [done|].
    destruct (hash_file fs p) as [h|] eqn:Hh; [|done].
    destruct Hknown. apply elem_of_list_to_set.
    unfold paths. rewrite map_app. apply elem_of_app.
    destruct (decide (p ∈ map file_location db)) as [Hdb|Hdb]; [by left|].
    right. apply list_elem_of_fmap.
    exists {| file_location := p; original_hash := new_file;
              new_hash := h; is_modified := 1 |}.
    split; [done|]. apply list_elem_of_omap. exists p. split; [done|].
    unfold discovered. rewrite Hh.
    rewrite bool_decide_eq_false_2; [done|].
    by rewrite elem_of_list_to_set.
Qed.

(** When the reading of a new file raises an exception that is not an
    [IOError], [check_new_files] raises it and the table stays as
    [check_existing_files] left it. *)
Example check_new_files_raises :
  check_new_files Examples.monitor_data Examples.huge_disk Examples.baseline
  = Raise MemoryError
  /\ diff Examples.monitor_data Examples.huge_disk Examples.baseline
     = check_existing_files Examples.huge_disk Examples.baseline.
Proof. vm_compute. done. Qed.

(** C3: over the same configuration and file system, a second [diff]
    right after a first one leaves the table as the first one left it:
    every row keeps its [is_modified] and its [new_hash]. *)
Theorem diff_idempotent (cfg : config) (fs : filesystem) (db : table) :
  diff cfg fs (diff cfg fs db) = diff cfg fs db.
Proof.
  destruct (diff_rows cfg fs db) as (added & Hdiff & _ & Hadded).
  unfold diff at 1. rewrite Hdiff.
  rewrite (check_existing_files_settled fs db added Hadded).
  rewrite <- Hdiff. unfold diff.
  apply check_new_files_settled.
Qed.

(** ** update *)

(** C4: when no two rows share a path, a row that a [diff] leaves with
    [is_modified] 0 has, after [update_database], a row for its path, and
    every row for its path has the same [original_hash] as before. *)
Theorem update_keeps_unmodified_baseline (cfg : config) (fs : filesystem)
    (db : table) (r : row) :
  unique_paths db ->
  r ∈ diff cfg fs db ->
  is_modified r = 0%Z ->
  (exists r',
      r' ∈ update_database (diff cfg fs db)
      /\ file_location r' = file_location r)
  /\ forall r',
       r' ∈ update_database (diff cfg fs db) ->
       file_location r' = file_location r ->
       original_hash r' = original_hash r.
Proof.
  intros Hnd Hr Hmod.
  pose proof (diff_unique cfg fs db Hnd) as Hnd'.
  assert (new_hash r = original_hash r /\ new_hash r <> file_deleted)
    as [Hsame Hkept].
  { destruct (diff_rows cfg fs db) as (added & Hdiff & _ & Hadded).
    rewrite Hdiff in Hr. apply elem_of_app in Hr as [Hr|Hr].
    - rewrite check_existing_files_unique in Hr by done.
      apply list_elem_of_fmap in Hr as (r0 & -> & _).
      unfold recheck in *. simpl in *.
      destruct (hash_file fs (file_location r0)) as [h|] eqn:Hh;
        simpl in *; [|done].
      case_bool_decide as Hdiffers; [done|].
      split; [|by eapply hash_file_not_deleted].
      by destruct (decide (h = original_hash r0)).
    - destruct (Hadded r Hr) as (_ & _ & Hone & _). congruence. }
  rewrite update_database_unique by done. split.
  - exists (set_accepted (new_hash r) r). split; [|done].
    apply list_elem_of_fmap. exists r. split; [done|].
    by apply list_elem_of_filter.
  - intros r' (x & -> & Hx)%list_elem_of_fmap Hloc. simpl in *.
    apply list_elem_of_filter in Hx as [_ Hx].
    by rewrite (unique_paths_same_row _ x r Hnd' Hx Hr Hloc).
Qed.

Lemma update_keeps_unmodified_baseline_witness :
  (exists r',
      r' ∈ update_database
             (diff Examples.monitor_data Examples.data_disk Examples.baseline)
      /\ file_location r' = "/data/a.txt")
  /\ forall r',
       r' ∈ update_database
              (diff Examples.monitor_data Examples.data_disk Examples.baseline) ->
       file_location r' = "/data/a.txt" ->
       original_hash r' = "a9993e364706816aba3e25717850c26c9cd0d89d".
Proof.
  apply (update_keeps_unmodified_baseline Examples.monitor_data
           Examples.data_disk Examples.baseline
           {| file_location := "/data/a.txt";
              original_hash := "a9993e364706816aba3e25717850c26c9cd0d89d";
              new_hash := "a9993e364706816aba3e25717850c26c9cd0d89d";
              is_modified := 0 |}).
  - apply (bool_decide_unpack _). vm_compute. exact I.
  - vm_compute. left.
  - reflexivity.
Defined.

(** C5, as worded, fails: [init_database] destroys the rows it finds. *)
Lemma init_destroys_rows_counterexample : ~ destroyed_only_by_update.
Proof.
  intros Hrule.
  destruct (Hrule Init Examples.nothing_monitored Examples.empty_disk
              Examples.baseline
              {| file_location := "/data/a.txt";
                 original_hash := "a9993e364706816aba3e25717850c26c9cd0d89d";
                 new_hash := not_checked; is_modified := 0 |})
    as [Hcommand _].
  - left.
  - vm_compute. apply not_elem_of_nil.
  - discriminate Hcommand.
Qed.

(** C5, amended: when no two rows share a path, [update_database] leaves
    no row for the path of a row whose [new_hash] was "File deleted.", it
    leaves a row for the path of every other row, and so does every
    command other than [init]. *)
Theorem update_removes_exactly_deleted (cfg : config) (fs : filesystem)
    (db : table) (r : row) :
  unique_paths db ->
  r ∈ db ->
  (new_hash r = file_deleted -> file_location r ∉ paths (update_database db))
  /\ (new_hash r <> file_deleted -> file_location r ∈ paths (update_database db))
  /\ forall c,
       c <> Init ->
       (c = Update -> new_hash r <> file_deleted) ->
       file_location r ∈ paths (run c cfg fs db).
Proof.
  intros Hnd Hr.
  assert (file_location r ∈ paths db) as Hpath
    by (apply list_elem_of_fmap; by exists r).
  assert (new_hash r <> file_deleted ->
          file_location r ∈ paths (update_database db)) as Hkept.
  { intros Hnew. rewrite update_database_paths.
    apply list_elem_of_fmap. exists r. split; [done|].
    by apply list_elem_of_filter. }
  split; [|split; [done|]].
  - intros Hnew. rewrite update_database_paths.
    intros (x & Hloc & Hx)%list_elem_of_fmap.
    apply list_elem_of_filter in Hx as [Hxkept Hx].
    by rewrite <- (unique_paths_same_row db r x Hnd Hr Hx Hloc) in Hxkept.
  - intros [] Hc Hupd; simpl.
    + done.
    + done.
    + destruct (diff_rows cfg fs db) as (added & -> & _).
      unfold paths. rewrite map_app. apply elem_of_app. left.
      fold (paths (check_existing_files fs db)).
      by rewrite check_existing_files_paths.
    + by apply Hkept, Hupd.
Qed.

Lemma update_removes_exactly_deleted_witness :
  let db := diff Examples.monitor_data Examples.data_disk Examples.baseline in
  "/data/old.txt" ∉ paths (update_database db).
Proof.
  intros db.
  apply (update_removes_exactly_deleted Examples.monitor_data
           Examples.data_disk db
           {| file_location := "/data/old.txt";
              original_hash := "da39a3ee5e6b4b0d3255bfef95601890afd80709";
              new_hash := file_deleted; is_modified := 1 |}).
  - apply (bool_decide_unpack _). vm_compute. exact I.
  - vm_compute. right. left.
  - reflexivity.
Defined.

(** * Further properties of the monitor *)

(** ** hash_file, whatever the lines *)

(** X20: [hash_file] returns the SHA-1 hexadecimal digest of the whole
    content of the file, however the content splits into lines, and it
    raises what opening and reading the file raises. *)
Theorem hash_file_is_digest_of_content (fs : filesystem) (file_location : string) :
  hash_file fs file_location
  = match open_rb fs file_location with
    | Return content => Return (sha1_hex content)
    | Raise e => Raise e
    end.
Proof.
  unfold hash_file.
  destruct (open_rb fs file_location) as [content|e]; [|done].
  f_equal. unfold sha1_hex, Hashlib.hexdigest.
  by rewrite update_fold, readlines_concat.
Qed.

(** ** The removal loop, whatever the listing *)

Lemma list_remove_sublist (d : string) (l : list string) :
  list_remove d l `sublist_of` l.
Proof.
  induction l as [|x l IH]; simpl; [constructor|].
  case_decide; [by apply sublist_cons|by apply sublist_skip].
Qed.

Lemma list_remove_other (d name : string) (l : list string) :
  name <> d -> name ∈ l -> name ∈ list_remove d l.
Proof.
  intros Hne. induction l as [|x l IH]; simpl; [done|].
  intros [->|Hin]%elem_of_cons.
  - rewrite decide_False by done. by left.
  - case_decide; [done|]. right. by apply IH.
Qed.

Lemma remove_excluded_loop_sublist cfg dirpath steps i (dirs : list string) :
  remove_excluded_loop cfg dirpath steps i dirs `sublist_of` dirs.
Proof.
  revert i dirs. induction steps as [|steps IH]; intros i dirs; simpl; [done|].
  destruct (dirs !! i) as [d|]; [|done].
  case_bool_decide; [|apply IH].
  etrans; [apply IH|apply list_remove_sublist].
Qed.

Lemma remove_excluded_loop_keeps cfg dirpath steps i (dirs : list string) name :
  name ∈ dirs ->
  os_path_join dirpath name ∉ exclude_dirs cfg ->
  name ∈ remove_excluded_loop cfg dirpath steps i dirs.
Proof.
  revert i dirs. induction steps as [|steps IH]; intros i dirs Hin Hname;
    simpl; [done|].
  destruct (dirs !! i) as [d|]; [|done].
  case_bool_decide as Hd; [|by apply IH].
  apply IH; [|done]. apply list_remove_other; [|done].
  intros ->. done.
Qed.

(** X3: the loop only takes names out: what it leaves is the listing
    with some names dropped, in the same order, and a name whose
    directory is not excluded is never dropped. *)
Theorem remove_excluded_only_drops_excluded (cfg : config) (dirpath : string)
    (dirs : list string) :
  remove_excluded cfg dirpath dirs `sublist_of` dirs
  /\ forall name,
       name ∈ dirs ->
       os_path_join dirpath name ∉ exclude_dirs cfg ->
       name ∈ remove_excluded cfg dirpath dirs.
Proof.
  split; [apply remove_excluded_loop_sublist|].
  intros name. apply remove_excluded_loop_keeps.
Qed.

(** X4: in a listing of distinct names that starts with two excluded
    directories, the loop removes the first and keeps the second. *)
Theorem remove_excluded_keeps_second (cfg : config) (dirpath : string)
    (first second : string) (rest : list string) :
  NoDup (first :: second :: rest) ->
  os_path_join dirpath first ∈ exclude_dirs cfg ->
  os_path_join dirpath second ∈ exclude_dirs cfg ->
  (first ∉ remove_excluded cfg dirpath (first :: second :: rest))
  /\ second ∈ remove_excluded cfg dirpath (first :: second :: rest).
Proof.
  intros Hnd Hfirst Hsecond.
  rewrite remove_excluded_distinct by done. simpl.
  rewrite (bool_decide_eq_true_2 _ Hfirst). split; [|by left].
  apply NoDup_cons in Hnd as [Hfresh Hnd].
  intros Hin. apply Hfresh.
  apply elem_of_cons in Hin as [->|Hin]; [by left|]. right.
  assert (after_removal cfg dirpath rest `sublist_of` rest) as Hsub.
  { apply NoDup_cons in Hnd as [_ Hrest].
    rewrite <- remove_excluded_distinct by done.
    apply remove_excluded_loop_sublist. }
  by eapply elem_of_sublist.
Qed.

Lemma remove_excluded_keeps_second_witness :
  ("cache" ∉ remove_excluded Examples.monitor_data_only "/data" ["cache"; "tmp"])
  /\ "tmp" ∈ remove_excluded Examples.monitor_data_only "/data" ["cache"; "tmp"].
Proof.
  apply (remove_excluded_keeps_second Examples.monitor_data_only "/data"
           "cache" "tmp" []);
    apply (bool_decide_unpack _); vm_compute; exact I.
Defined.

(** ** The resolved set, from the side of the disk *)

Lemma os_walk_finds cfg top t chain p :
  reaches top t chain p ->
  (forall d, d ∈ chain -> d ∉ exclude_dirs cfg) ->
  exists dirpath dirs files f,
    (dirpath, dirs, files) ∈ os_walk (remove_excluded cfg) top t
    /\ f ∈ files /\ p = os_path_join dirpath f.
Proof.
  induction 1 as [top subdirs files f Hf
                 |top subdirs files name sub chain p Hin Hreach IH];
    intros Hchain.
  - exists top, (remove_excluded cfg top (map fst subdirs)), files, f.
    split; [|done]. apply os_walk_elem. by left.
  - destruct IH as (dirpath & dirs & files' & f & Hy & Hf & ->).
    { intros d Hd. apply Hchain. by right. }
    exists dirpath, dirs, files', f. split; [|done].
    apply os_walk_elem. right. exists name, sub.
    split; [done|]. split; [|done].
    apply remove_excluded_loop_keeps.
    + apply list_elem_of_fmap. by exists (name, sub).
    + apply Hchain. by left.
Qed.

(** X1: a file of the tree of an include directory is returned by
    [get_config_files] when it is not in [exclude_files] and none of the
    directories entered below the include directory to reach it is in
    [exclude_dirs]. *)
Theorem get_config_files_complete (cfg : config) (fs : filesystem)
    (include_dir : string) (t : dir_tree) (chain : list string) (p : string) :
  include_dir ∈ include_dirs cfg ->
  fs_dirs fs !! include_dir = Some t ->
  reaches include_dir t chain p ->
  (forall d, d ∈ chain -> d ∉ exclude_dirs cfg) ->
  p ∉ exclude_files cfg ->
  p ∈ get_config_files cfg fs.
Proof.
  intros Hroot Ht Hreach Hchain Hfile.
  destruct (os_walk_finds cfg _ _ _ _ Hreach Hchain)
    as (dirpath & dirs & files & f & Hy & Hf & ->).
  apply get_config_files_elem. right.
  exists include_dir, dirpath, dirs, files, f.
  split; [done|]. split; [|done].
  unfold walk_from. by rewrite Ht.
Qed.

Lemma get_config_files_complete_witness :
  "/data/tmp/t.bin" ∈ get_config_files Examples.monitor_data Examples.data_disk.
Proof.
  apply (get_config_files_complete Examples.monitor_data Examples.data_disk
           "/data"
           (Dir [("cache", Dir [] ["c.bin"]); ("tmp", Dir [] ["t.bin"])]
                ["a.txt"; "b.txt"])
           ["/data/tmp"] "/data/tmp/t.bin").
  - apply (bool_decide_unpack _). vm_compute. exact I.
  - reflexivity.
  - apply (reaches_below "/data" _ _ "tmp" (Dir [] ["t.bin"]) [] "/data/tmp/t.bin").
    + right. left.
    + apply (reaches_here "/data/tmp" [] ["t.bin"] "t.bin"). left.
  - intros d Hd. apply list_elem_of_singleton in Hd. subst d.
    apply (bool_decide_unpack _). vm_compute. exact I.
  - apply (bool_decide_unpack _). vm_compute. exact I.
Defined.

(** X2: when none of the include directories is a directory on disk, the
    walks yield nothing and [get_config_files] returns [include_files]
    as they are. *)
Theorem get_config_files_missing_dirs (cfg : config) (fs : filesystem) :
  (forall d, d ∈ include_dirs cfg -> fs_dirs fs !! d = None) ->
  get_config_files cfg fs = include_files cfg.
Proof.
  intros Hmissing. apply set_eq. intros p.
  rewrite get_config_files_elem. split; [|by left].
  intros [?|(d & dirpath & dirs & files & f & Hd & Hy & _)]; [done|].
  unfold walk_from in Hy. rewrite (Hmissing d Hd) in Hy.
  by apply elem_of_nil in Hy.
Qed.

Lemma get_config_files_missing_dirs_witness :
  get_config_files Examples.monitor_data Examples.empty_disk
  = include_files Examples.monitor_data.
Proof.
  apply (get_config_files_missing_dirs Examples.monitor_data Examples.empty_disk).
  intros d _. reflexivity.
Defined.

(** ** What a diff stores *)

Lemma check_existing_files_row (fs : filesystem) (db : table) r :
  r ∈ check_existing_files fs db ->
  exists x r',
    x ∈ db /\ r' ∈ db /\ file_location r' = file_location x
    /\ r = set_checked (recheck fs r') x.
Proof.
  rewrite check_existing_files_map.
  intros (x & -> & Hx)%list_elem_of_fmap.
  destruct (last_written (recheck fs) db (file_location x)) as [v|] eqn:Hv.
  - apply last_written_Some in Hv as (r' & Hr' & Hloc & ->).
    by exists x, r'.
  - apply last_written_None in Hv. destruct Hv.
    apply list_elem_of_fmap. by exists x.
Qed.

Lemma recheck_seen (fs : filesystem) (r : row) :
  (recheck fs r).1 = seen fs (file_location r).
Proof. unfold recheck, seen. by destruct (hash_file fs (file_location r)). Qed.

Lemma recheck_flag (fs : filesystem) (r : row) :
  ((recheck fs r).2 = 0%Z \/ (recheck fs r).2 = 1%Z)
  /\ ((recheck fs r).1 = file_deleted -> (recheck fs r).2 = 1%Z)
  /\ ((recheck fs r).2 = 0%Z <-> matches_disk fs r).
Proof.
  unfold recheck, matches_disk.
  destruct (hash_file fs (file_location r)) as [h|e] eqn:Hh; simpl.
  - case_bool_decide as Hdiff.
    + split; [by right|]. split; [done|]. split; [done|].
      intros [= ->]. done.
    + split; [by left|]. split.
      * intros ->. by apply hash_file_not_deleted in Hh.
      * split; [|done]. intros _.
        by destruct (decide (h = original_hash r)) as [->|].
  - split; [by right|]. done.
Qed.

Lemma seen_not_deleted (fs : filesystem) (p : string) :
  seen fs p <> file_deleted <-> hash_file fs p = Return (seen fs p).
Proof.
  unfold seen. destruct (hash_file fs p) as [h|e] eqn:Hh.
  - split; [done|]. intros _. by eapply hash_file_not_deleted.
  - split; [done|]. done.
Qed.

Lemma seen_Return (fs : filesystem) (p h : string) :
  hash_file fs p = Return h -> seen fs p = h.
Proof. unfold seen. by intros ->. Qed.

Lemma diff_new_hash_seen (cfg : config) (fs : filesystem) (db : table) r :
  r ∈ diff cfg fs db -> new_hash r = seen fs (file_location r).
Proof.
  destruct (diff_rows cfg fs db) as (added & -> & _ & Hadded).
  intros [Hr|Hr]%elem_of_app.
  - apply check_existing_files_row in Hr as (x & r' & _ & _ & Hloc & ->).
    simpl. by rewrite recheck_seen, Hloc.
  - destruct (Hadded r Hr) as (_ & _ & _ & Hh).
    by rewrite (seen_Return _ _ _ Hh).
Qed.

(** X6: after a [diff], in every row [new_hash] is the hash of the file
    at its path as it is on disk, or "File deleted." when hashing the
    path raises; [is_modified] is 0 or 1, and it is 1 in every row marked
    "File deleted.". *)
Theorem diff_records_disk (cfg : config) (fs : filesystem) (db : table)
    (r : row) :
  r ∈ diff cfg fs db ->
  new_hash r = seen fs (file_location r)
  /\ (is_modified r = 0%Z \/ is_modified r = 1%Z)
  /\ (new_hash r = file_deleted -> is_modified r = 1%Z).
Proof.
  intros Hr. split; [by eapply diff_new_hash_seen|].
  destruct (diff_rows cfg fs db) as (added & Hdiff & _ & Hadded).
  rewrite Hdiff in Hr. apply elem_of_app in Hr as [Hr|Hr].
  - apply check_existing_files_row in Hr as (x & r' & _ & _ & _ & ->).
    simpl. destruct (recheck_flag fs r') as (? & ? & _). done.
  - destruct (Hadded r Hr) as (_ & _ & -> & _). split; [by right|done].
Qed.

Lemma diff_records_disk_witness :
  new_hash
    {| file_location := "/data/old.txt";
       original_hash := "da39a3ee5e6b4b0d3255bfef95601890afd80709";
       new_hash := file_deleted; is_modified := 1 |}
  = seen Examples.data_disk "/data/old.txt"
  /\ (1 = 0 \/ 1 = 1)%Z
  /\ (file_deleted = file_deleted -> 1 = 1)%Z.
Proof.
  apply (diff_records_disk Examples.monitor_data Examples.data_disk
           Examples.baseline
           {| file_location := "/data/old.txt";
              original_hash := "da39a3ee5e6b4b0d3255bfef95601890afd80709";
              new_hash := file_deleted; is_modified := 1 |}).
  vm_compute. right. left.
Defined.

(** X5: when no two rows share a path, [get_modified_files] returns after
    a [diff] exactly the rows whose file does not hash to their
    [original_hash]: changed, unreadable and newly found files. *)
Theorem diff_flags_exactly_changes (cfg : config) (fs : filesystem)
    (db : table) (r : row) :
  unique_paths db ->
  r ∈ diff cfg fs db ->
  r ∈ get_modified_files (diff cfg fs db) <-> ~ matches_disk fs r.
Proof.
  intros Hnd Hr. unfold get_modified_files.
  rewrite list_elem_of_filter.
  assert (is_modified r = 1%Z <-> ~ matches_disk fs r) as <-; [|tauto].
  destruct (diff_rows cfg fs db) as (added & Hdiff & _ & Hadded).
  rewrite Hdiff in Hr. apply elem_of_app in Hr as [Hr|Hr].
  - rewrite check_existing_files_unique in Hr by done.
    apply list_elem_of_fmap in Hr as (x & -> & _).
    destruct (recheck_flag fs x) as ([H0|H1] & _ & Hiff); simpl.
    + rewrite H0. split; [done|]. intros Hno. destruct Hno.
      by apply Hiff.
    + rewrite H1. split; [|done]. intros _ Hyes.
      apply Hiff in Hyes. unfold matches_disk in *. simpl in *. congruence.
  - destruct (Hadded r Hr) as (_ & Horig & -> & Hh).
    split; [|done]. intros _. unfold matches_disk. rewrite Hh, Horig.
    intros [= Heq]. by apply hash_file_not_new in Hh.
Qed.

Lemma diff_flags_exactly_changes_witness :
  {| file_location := "/data/tmp/t.bin"; original_hash := new_file;
     new_hash := "aa3e5dcdd77b153f2e59bd0d8794fde33cb4e486";
     is_modified := 1 |}
    ∈ get_modified_files
        (diff Examples.monitor_data Examples.data_disk Examples.baseline)
  <-> ~ matches_disk Examples.data_disk
          {| file_location := "/data/tmp/t.bin"; original_hash := new_file;
             new_hash := "aa3e5dcdd77b153f2e59bd0d8794fde33cb4e486";
             is_modified := 1 |}.
Proof.
  apply (diff_flags_exactly_changes Examples.monitor_data Examples.data_disk
           Examples.baseline).
  - apply (bool_decide_unpack _). vm_compute. exact I.
  - vm_compute. right. right. left.
Defined.

Lemma escapes_true (fs : filesystem) (db : table) (q : string) :
  escapes fs (list_to_set (paths db)) q = true <->
  (q ∉ paths db) /\ hash_file fs q = Raise MemoryError.
Proof.
  unfold escapes. rewrite andb_true_iff, negb_true_iff, bool_decide_eq_false.
  rewrite elem_of_list_to_set.
  apply and_iff_compat_l.
  destruct (hash_file fs q) as [h|[]]; split; done.
Qed.

Lemma existsb_escapes (cfg : config) (fs : filesystem) (db : table) :
  existsb (escapes fs (list_to_set (paths db)))
    (iter_set (get_config_files cfg fs)) = true <->
  exists q,
    q ∈ get_config_files cfg fs
    /\ (q ∉ paths db) /\ hash_file fs q = Raise MemoryError.
Proof.
  rewrite existsb_exists. unfold iter_set. split.
  - intros (q & Hq%list_elem_of_In%elem_of_elements & Hesc%escapes_true).
    by exists q.
  - intros (q & Hq & Hesc). exists q. split.
    + by apply list_elem_of_In, elem_of_elements.
    + by apply escapes_true.
Qed.

(** X11: when [check_new_files] returns, the table after [diff] has a row
    for every resolved path that hashes, with that hash as [new_hash]; a
    path that had no row gets one with [original_hash] "New File." and
    [is_modified] 1. *)
Theorem diff_covers_resolved (cfg : config) (fs : filesystem) (db db' : table)
    (p h : string) :
  check_new_files cfg fs (check_existing_files fs db) = Return db' ->
  p ∈ get_config_files cfg fs ->
  hash_file fs p = Return h ->
  exists r,
    r ∈ diff cfg fs db
    /\ file_location r = p
    /\ new_hash r = h
    /\ (p ∉ paths db -> original_hash r = new_file /\ is_modified r = 1%Z).
Proof.
  intros Hret Hp Hh.
  assert (forall r, r ∈ diff cfg fs db -> file_location r = p -> new_hash r = h)
    as Hnew.
  { intros r Hr <-. rewrite (diff_new_hash_seen cfg fs db r Hr).
    by apply seen_Return. }
  pose proof Hret as Hout.
  rewrite check_new_files_outcome in Hout. cbv zeta in Hout.
  destruct (existsb _ _); [done|]. injection Hout as Hout.
  assert (diff cfg fs db = db') as Hdiff by (unfold diff; by rewrite Hret).
  rewrite check_existing_files_paths in Hout.
  destruct (decide (p ∈ paths db)) as [Hknown|Hfresh].
  - rewrite <- (check_existing_files_paths fs db) in Hknown.
    apply list_elem_of_fmap in Hknown as (r & -> & Hr).
    assert (r ∈ diff cfg fs db) as Hin.
    { rewrite Hdiff, <- Hout. apply elem_of_app. by left. }
    exists r. split; [done|]. split; [done|]. split; [by apply Hnew|].
    intros Hno. destruct Hno.
    rewrite <- (check_existing_files_paths fs db).
    apply list_elem_of_fmap. by exists r.
  - exists {| file_location := p; original_hash := new_file;
              new_hash := h; is_modified := 1 |}.
    split; [|done]. rewrite Hdiff, <- Hout. apply elem_of_app. right.
    apply list_elem_of_omap. exists p.
    split; [by apply elem_of_elements|].
    unfold discovered. rewrite Hh.
    rewrite bool_decide_eq_false_2; [done|].
    by rewrite elem_of_list_to_set.
Qed.

Lemma diff_covers_resolved_witness :
  exists r,
    r ∈ diff Examples.monitor_data Examples.data_disk Examples.baseline
    /\ file_location r = "/data/tmp/t.bin"
    /\ new_hash r = "aa3e5dcdd77b153f2e59bd0d8794fde33cb4e486"
    /\ ("/data/tmp/t.bin" ∉ paths Examples.baseline ->
        original_hash r = new_file /\ is_modified r = 1%Z).
Proof.
  apply (diff_covers_resolved Examples.monitor_data Examples.data_disk
           Examples.baseline
           (diff Examples.monitor_data Examples.data_disk Examples.baseline)).
  - vm_compute. reflexivity.
  - apply (bool_decide_unpack _). vm_compute. exact I.
  - vm_compute. reflexivity.
Defined.



(** ** What an update stores *)

Lemma update_database_row (db : table) r :
  r ∈ update_database db ->
  exists x r',
    x ∈ db /\ new_hash x <> file_deleted
    /\ r' ∈ db /\ file_location r' = file_location x
    /\ r = set_accepted (new_hash r') x.
Proof.
  rewrite update_database_map.
  intros (x & -> & Hx)%list_elem_of_fmap.
  apply list_elem_of_filter in Hx as [Hkept Hx].
  destruct (last_written new_hash db (file_location x)) as [v|] eqn:Hv.
  - apply last_written_Some in Hv as (r' & Hr' & Hloc & ->).
    by exists x, r'.
  - apply (last_written_None new_hash) in Hv. destruct Hv.
    apply list_elem_of_fmap. by exists x.
Qed.

Lemma filter_all {A} (P : A -> Prop) `{forall x, Decision (P x)} (l : list A) :
  (forall x, x ∈ l -> P x) -> filter P l = l.
Proof.
  induction l as [|x l IH]; intros Hall; [done|].
  rewrite filter_cons_True by (apply Hall; by left).
  f_equal. apply IH. intros y Hy. apply Hall. by right.
Qed.

Lemma get_modified_files_none (db : table) :
  (forall r, r ∈ db -> is_modified r = 0%Z) -> get_modified_files db = [].
Proof.
  intros Hall. unfold get_modified_files.
  induction db as [|x db IH]; [done|].
  rewrite filter_cons_False.
  - apply IH. intros r Hr. apply Hall. by right.
  - rewrite (Hall x) by by left. done.
Qed.

Lemma update_database_unchecked (db : table) :
  (forall x, x ∈ db -> new_hash x = not_checked) ->
  paths (update_database db) = paths db
  /\ forall r, r ∈ update_database db ->
       original_hash r = not_checked
       /\ new_hash r = not_checked
       /\ is_modified r = 0%Z.
Proof.
  intros Hall. split.
  - rewrite update_database_paths. unfold sql_delete_deleted.
    rewrite filter_all; [done|].
    intros x Hx. by rewrite (Hall x Hx).
  - intros r (x & r' & _ & _ & Hr' & _ & ->)%update_database_row.
    simpl. by rewrite (Hall r' Hr').
Qed.

Lemma update_database_resets (db : table) r :
  r ∈ update_database db -> new_hash r = not_checked /\ is_modified r = 0%Z.
Proof. by intros (x & r' & _ & _ & _ & _ & ->)%update_database_row. Qed.

Lemma init_database_row (cfg : config) (fs : filesystem) (db : table) r :
  r ∈ init_database cfg fs db ->
  file_location r ∈ get_config_files cfg fs
  /\ matches_disk fs r
  /\ new_hash r = not_checked
  /\ is_modified r = 0%Z.
Proof.
  rewrite init_database_rows.
  intros (p & Hp%elem_of_elements & Hrow)%list_elem_of_omap.
  unfold initial in Hrow. unfold matches_disk.
  destruct (hash_file fs p) as [h|] eqn:Hh; [|done].
  injection Hrow as <-. done.
Qed.

Lemma update_after_diff_row (cfg : config) (fs : filesystem) (db : table) r :
  r ∈ update_database (diff cfg fs db) -> matches_disk fs r.
Proof.
  intros (x & r' & Hx & Hkept & Hr' & Hloc & ->)%update_database_row.
  unfold matches_disk. simpl.
  rewrite (diff_new_hash_seen cfg fs db x Hx) in Hkept.
  rewrite (diff_new_hash_seen cfg fs db r' Hr'), Hloc.
  by apply seen_not_deleted.
Qed.

Lemma update_database_paths_subset (db : table) (p : string) :
  p ∈ paths (update_database db) -> p ∈ paths db.
Proof.
  rewrite update_database_paths. unfold paths, sql_delete_deleted.
  rewrite !list_elem_of_fmap.
  intros (x & -> & [_ Hx]%list_elem_of_filter). by exists x.
Qed.

Lemma update_after_diff_kept (cfg : config) (fs : filesystem) (db : table)
    (p h : string) :
  p ∈ paths (diff cfg fs db) -> hash_file fs p = Return h ->
  p ∈ paths (update_database (diff cfg fs db)).
Proof.
  rewrite update_database_paths. unfold paths, sql_delete_deleted.
  rewrite !list_elem_of_fmap.
  intros (x & -> & Hx) Hh. exists x. split; [done|].
  apply list_elem_of_filter. split; [|done].
  rewrite (diff_new_hash_seen cfg fs db x Hx), (seen_Return _ _ _ Hh).
  by eapply hash_file_not_deleted.
Qed.

(** X7: after [diff] and then [update_database], every row of the table
    has as [original_hash] the hash of its file as it is on disk, with
    [new_hash] "Not checked." and [is_modified] 0. *)
Theorem update_after_diff_baseline (cfg : config) (fs : filesystem)
    (db : table) (r : row) :
  r ∈ update_database (diff cfg fs db) ->
  hash_file fs (file_location r) = Return (original_hash r)
  /\ new_hash r = not_checked
  /\ is_modified r = 0%Z.
Proof.
  intros Hr. split; [by eapply update_after_diff_row|].
  by apply update_database_resets in Hr.
Qed.

Lemma update_after_diff_baseline_witness :
  hash_file Examples.data_disk "/data/tmp/t.bin"
  = Return "aa3e5dcdd77b153f2e59bd0d8794fde33cb4e486"
  /\ not_checked = not_checked
  /\ (0 = 0)%Z.
Proof.
  apply (update_after_diff_baseline Examples.monitor_data Examples.data_disk
           Examples.baseline
           {| file_location := "/data/tmp/t.bin";
              original_hash := "aa3e5dcdd77b153f2e59bd0d8794fde33cb4e486";
              new_hash := not_checked; is_modified := 0 |}).
  vm_compute. right. left.
Defined.

(** X8: [update_database] after [diff] keeps a row for exactly the paths
    of the table whose file hashes: the rows of the files that cannot be
    read are gone, no other. *)
Theorem update_after_diff_keeps_readable (cfg : config) (fs : filesystem)
    (db : table) (p : string) :
  p ∈ paths (update_database (diff cfg fs db)) <->
  p ∈ paths (diff cfg fs db) /\ exists h, hash_file fs p = Return h.
Proof.
  split.
  - intros Hp. split; [by apply update_database_paths_subset|].
    rewrite update_database_paths in Hp.
    apply list_elem_of_fmap in Hp as (x & -> & [Hkept Hx]%list_elem_of_filter).
    rewrite (diff_new_hash_seen cfg fs db x Hx) in Hkept.
    exists (seen fs (file_location x)). by apply seen_not_deleted.
  - intros [Hp [h Hh]]. by eapply update_after_diff_kept.
Qed.

(** X12: a second [update_database] with no [diff] in between removes no
    row and overwrites every [original_hash] with "Not checked.". *)
Theorem update_twice_loses_baseline (db : table) :
  paths (update_database (update_database db)) = paths (update_database db)
  /\ forall r, r ∈ update_database (update_database db) ->
       original_hash r = not_checked
       /\ new_hash r = not_checked
       /\ is_modified r = 0%Z.
Proof.
  apply update_database_unchecked.
  intros x Hx. by apply update_database_resets in Hx as [? _].
Qed.

(** X15: [update_database] right after [init_database], with no [diff] in
    between, keeps a row for every path and overwrites every
    [original_hash] with "Not checked.". *)
Theorem update_after_init_loses_baseline (cfg : config) (fs : filesystem)
    (db : table) :
  paths (update_database (init_database cfg fs db))
  = paths (init_database cfg fs db)
  /\ forall r, r ∈ update_database (init_database cfg fs db) ->
       original_hash r = not_checked
       /\ new_hash r = not_checked
       /\ is_modified r = 0%Z.
Proof.
  apply update_database_unchecked.
  intros x Hx. by apply init_database_row in Hx as (_ & _ & ? & _).
Qed.

(** X14: right after [init_database] and right after [update_database],
    [get_modified_files] returns nothing. *)
Theorem baseline_has_no_modified (cfg : config) (fs : filesystem) (db : table) :
  get_modified_files (init_database cfg fs db) = []
  /\ get_modified_files (update_database db) = [].
Proof.
  split; apply get_modified_files_none; intros r Hr.
  - by apply init_database_row in Hr as (_ & _ & _ & ?).
  - by apply update_database_resets in Hr as [_ ?].
Qed.

(** ** A diff over an accepted baseline *)

Lemma diff_clean (cfg : config) (fs : filesystem) (db : table) :
  (forall r, r ∈ db -> matches_disk fs r) ->
  (forall p h,
     p ∈ get_config_files cfg fs -> p ∉ paths db ->
     hash_file fs p = Return h ->
     exists q,
       q ∈ get_config_files cfg fs /\ (q ∉ paths db)
       /\ hash_file fs q = Raise MemoryError) ->
  get_modified_files (diff cfg fs db) = [].
Proof.
  intros Hdisk Hcover.
  assert (diff cfg fs db = check_existing_files fs db) as ->.
  { unfold diff. rewrite check_new_files_outcome. cbv zeta.
    rewrite check_existing_files_paths.
    destruct (existsb _ _) eqn:Hesc; [done|]. simpl.
    rewrite omap_nil; [by rewrite app_nil_r|].
    intros p Hp%elem_of_elements. unfold discovered.
    case_bool_decide as Hknown; [done|].
    destruct (hash_file fs p) as [h|] eqn:Hh; [|done].
    rewrite elem_of_list_to_set in Hknown.
    apply (Hcover p h Hp Hknown), existsb_escapes in Hh. congruence. }
  apply get_modified_files_none.
  intros r (x & r' & _ & Hr' & _ & ->)%check_existing_files_row. simpl.
  by apply recheck_flag, Hdisk.
Qed.

(** X10: a [diff] right after [init_database], over the same
    configuration and disk, flags no row. *)
Theorem diff_after_init_is_clean (cfg : config) (fs : filesystem) (db : table) :
  get_modified_files (diff cfg fs (init_database cfg fs db)) = [].
Proof.
  apply diff_clean.
  - intros r Hr. by apply init_database_row in Hr as (_ & ? & _).
  - intros p h Hp Hnew Hh. destruct Hnew.
    rewrite init_database_rows. apply list_elem_of_fmap.
    exists {| file_location := p; original_hash := h;
              new_hash := not_checked; is_modified := 0 |}.
    split; [done|]. apply list_elem_of_omap. exists p.
    split; [by apply elem_of_elements|].
    unfold initial. by rewrite Hh.
Qed.

(** X9: once a [diff] has been accepted by [update_database], a further
    [diff] over the same configuration and disk flags no row. *)
Theorem diff_after_update_is_clean (cfg : config) (fs : filesystem) (db : table) :
  get_modified_files (diff cfg fs (update_database (diff cfg fs db))) = [].
Proof.
  apply diff_clean.
  - intros r Hr. by eapply update_after_diff_row.
  - intros p h Hp Hnew Hh.
    assert (p ∉ paths (diff cfg fs db)) as Hgone.
    { intros Hin. apply Hnew. by eapply update_after_diff_kept. }
    unfold diff in Hgone |- *.
    rewrite check_new_files_outcome in Hgone |- *. cbv zeta in Hgone |- *.
    rewrite check_existing_files_paths in Hgone |- *.
    destruct (existsb _ _) eqn:Hesc; simpl in Hgone |- *.
    + apply existsb_escapes in Hesc as (q & Hq & Hfresh & Hraise).
      exists q. split; [done|]. split; [|done].
      intros Hin%update_database_paths_subset.
      by rewrite check_existing_files_paths in Hin.
    + destruct Hgone. unfold paths. rewrite map_app. apply elem_of_app.
      destruct (decide (p ∈ paths db)) as [Hin|Hout].
      * left. fold (paths (check_existing_files fs db)).
        by rewrite check_existing_files_paths.
      * right. apply list_elem_of_fmap.
        exists {| file_location := p; original_hash := new_file;
                  new_hash := h; is_modified := 1 |}.
        split; [done|]. apply list_elem_of_omap. exists p.
        split; [by apply elem_of_elements|].
        unfold discovered. rewrite Hh.
        rewrite bool_decide_eq_false_2; [done|].
        by rewrite elem_of_list_to_set.
Qed.

(** ** main *)


(** X16: [main] leaves the table as it found it unless the configuration
    loads and the command is [init], [diff] or [update]: the usage text,
    an invalid configuration, [show] and an unknown command change
    nothing. *)
Theorem main_changes_store_only_by_command
    (FileMonitor : string -> string + config) (argv : list string)
    (fs : filesystem) (st : store) :
  stored (main FileMonitor argv fs st) <> st ->
  exists prog config_file command rest cfg,
    argv = prog :: config_file :: command :: rest
    /\ FileMonitor config_file = inr cfg
    /\ (command = "init" \/ command = "diff" \/ command = "update").
Proof.
  intros Hchanged.
  destruct argv as [|prog [|config_file [|command rest]]];
    [by destruct Hchanged..|].
  simpl in Hchanged.
  destruct (FileMonitor config_file) as [exc|cfg] eqn:Hload;
    [by destruct Hchanged|].
  exists prog, config_file, command, rest, cfg.
  split; [done|]. split; [done|].
  destruct (String.eqb_spec command "init"); [by left|].
  destruct (String.eqb_spec command "show").
  { destruct st; by destruct Hchanged. }
  destruct (String.eqb_spec command "diff"); [right; by left|].
  destruct (String.eqb_spec command "update"); [right; by right|].
  by destruct Hchanged.
Qed.

Lemma main_changes_store_only_by_command_witness :
  exists prog config_file command rest cfg,
    ["schit.py"; "schit.xml"; "init"] = prog :: config_file :: command :: rest
    /\ always Examples.monitor_data config_file = inr cfg
    /\ (command = "init" \/ command = "diff" \/ command = "update").
Proof.
  apply (main_changes_store_only_by_command (always Examples.monitor_data)
           ["schit.py"; "schit.xml"; "init"] Examples.data_disk NoTable).
  simpl. discriminate.
Defined.

(** X17: on a database file without the table, [init] creates it, filled
    as from an empty table, and exits with 0; [show], [diff] and [update]
    end in an uncaught [OperationalError], and no command but [init]
    creates the table. *)
Theorem main_only_init_creates_table
    (FileMonitor : string -> string + config) (prog config_file command : string)
    (rest : list string) (cfg : config) (fs : filesystem) :
  FileMonitor config_file = inr cfg ->
  let out := main FileMonitor (prog :: config_file :: command :: rest) fs NoTable in
  (command = "init" ->
   stored out = Table (init_database cfg fs []) /\ ended out = Exit 0)
  /\ (command <> "init" -> stored out = NoTable)
  /\ (command = "show" \/ command = "diff" \/ command = "update" ->
      ended out = Traceback OperationalError).
Proof.
  intros Hload out. subst out. simpl. rewrite Hload.
  split; [by intros ->|]. split.
  - intros Hne.
    destruct (String.eqb_spec command "init"); [done|].
    by repeat destruct (String.eqb _ _).
  - by intros [->| [->| ->]].
Qed.

Lemma main_only_init_creates_table_witness :
  let out :=
    main (always Examples.monitor_data) ["schit.py"; "schit.xml"; "diff"]
      Examples.data_disk NoTable in
  ("diff" = "init" ->
   stored out = Table (init_database Examples.monitor_data Examples.data_disk [])
   /\ ended out = Exit 0)
  /\ ("diff" <> "init" -> stored out = NoTable)
  /\ ("diff" = "show" \/ "diff" = "diff" \/ "diff" = "update" ->
      ended out = Traceback OperationalError).
Proof.
  apply (main_only_init_creates_table (always Examples.monitor_data)
           "schit.py" "schit.xml" "diff" [] Examples.monitor_data
           Examples.data_disk).
  reflexivity.
Defined.

(** X18: [main] exits with status 1 exactly when it got a configuration
    file and a command and the configuration does not load. *)
Theorem main_exit_one_iff_invalid_config
    (FileMonitor : string -> string + config) (argv : list string)
    (fs : filesystem) (st : store) :
  ended (main FileMonitor argv fs st) = Exit 1 <->
  exists prog config_file command rest exc,
    argv = prog :: config_file :: command :: rest
    /\ FileMonitor config_file = inl exc.
Proof.
  split.
  - destruct argv as [|prog [|config_file [|command rest]]]; [done..|].
    simpl.
    destruct (FileMonitor config_file) as [exc|cfg] eqn:Hload.
    + intros _. by exists prog, config_file, command, rest, exc.
    + intros Hend. exfalso.
      destruct (String.eqb command "init"); [done|].
      destruct (String.eqb command "show"); [by destruct st|].
      destruct (String.eqb command "diff").
      { destruct st; [done|]. by destruct (check_new_files _ _ _). }
      destruct (String.eqb command "update"); [by destruct st|done].
  - intros (prog & config_file & command & rest & exc & -> & Hload).
    simpl. by rewrite Hload.
Qed.


